(** * Mat4: a fixed 4x4 float matrix (src/src/mat4.hpp)

    Shallow embedding of the class [Mat4] and of the operations it offers.

    - The element type [float] and its arithmetic are an interface
      ([FloatOps]); its IEEE instance ([IEEE.float_ops]) is binary32, built
      on the Standard Library's executable specification of binary floating
      point ([SpecFloat], precision 24, exponent bound 128). What holds for
      every instance holds whatever the arithmetic does; what depends on
      rounding, infinities or signed zeros is stated on the IEEE instance.
    - [std::vector<float>] is a [list]; indexing it outside its bounds is
      undefined behaviour in C++, which the embedding makes explicit: every
      operation runs in the [option] monad and [None] stands for undefined
      behaviour (an out-of-range subscript or a signed [int] overflow).
    - The [for] loops are bounded iterations over the loop index, threading
      the data the loop body mutates. *)

From Stdlib Require Import ZArith Lia QArith Lqa.
From Stdlib Require Import Floats.SpecFloat.
From stdpp Require Import base option list.

#[local] Open Scope Z_scope.

(** ** The arithmetic the code relies on *)

(** The operations of the C++ type [float] that mat4.hpp uses: conversion
    from an integer (and from [bool], through 0 and 1), and the four
    arithmetic operators. *)
Class FloatOps (F : Type) := {
  f_of_int : Z → F;
  f_add : F → F → F;
  f_sub : F → F → F;
  f_mul : F → F → F;
  f_div : F → F → F
}.

(** The [double] computations of the rotation constructor:
    [angleInDegrees / 180 * M_PI] promotes the float quotient to double,
    multiplies by the double constant, calls the double [cos] / [sin] of the
    C library and stores the result into a float. *)
Class DoubleOps (F D : Type) := {
  d_of_float : F → D;
  f_of_double : D → F;
  d_mul : D → D → D;
  d_neg : D → D;
  d_cos : D → D;
  d_sin : D → D;
  M_PI : D
}.

(** The process-wide generator of the C library: [rand] advances the hidden
    state and returns an [int] between 0 and [RAND_MAX]. Neither is part of
    the sources; the generator is an explicit state of type [G]. *)
Class RandGen (G : Type) := {
  RAND_MAX : Z;
  rand : G → Z * G
}.

(** ** Undefined behaviour as [None] *)

Module UB.

(** [int] is 32 bits wide. *)
Definition INT_MIN : Z := -2147483648.
Definition INT_MAX : Z := 2147483647.

(** The value of an [int] expression, or [None] when it overflows. *)
Definition int_ok (z : Z) : option Z :=
  if decide (INT_MIN ≤ z ≤ INT_MAX) then Some z else None.

(** [i * n + j] evaluated on [int]. *)
Definition offset (i n j : Z) : option Z :=
  p ← int_ok (i * n); int_ok (p + j).

(** [v[k]] as an rvalue. *)
Definition vec_get {A} (v : list A) (k : Z) : option A :=
  if decide (0 ≤ k) then v !! Z.to_nat k else None.

(** [v[k] = x]. *)
Definition vec_set {A} (v : list A) (k : Z) (x : A) : option (list A) :=
  _ ← vec_get v k; Some (<[Z.to_nat k := x]> v).

(** [for (int i = lo; ...; ++i) body], run for [n] more iterations. *)
Fixpoint iterate {S} (n : nat) (i : Z) (body : Z → S → option S) (s : S)
  : option S :=
  match n with
  | O => Some s
  | S n' => s' ← body i s; iterate n' (i + 1) body s'
  end.

(** [for (int i = 0; i < hi; ++i) body]. *)
Definition for_lt {S} (hi : Z) (body : Z → S → option S) (s : S) : option S :=
  iterate (Z.to_nat hi) 0 body s.

(** [for (int i = 0; i < r; ++i) for (int j = 0; j < c; ++j) body]. *)
Definition for2 {S} (r c : Z) (body : Z → Z → S → option S) (s : S)
  : option S :=
  for_lt r (λ i s, for_lt c (λ j s, body i j s) s) s.

End UB.
Import UB.

(** ** The class *)

(** [enum INIT]; [INIT_other] stands for a value of the enumeration that
    names no enumerator (reachable by a cast), which the constructor's
    switch sends to its [default:] label. *)
Inductive INIT := IDENTITY | ONES | ZEROS | INIT_other.

Section Mat4.

Context {F : Type} `{FloatOps F}.

(** The data members: the row-major vector and the two [const int]
    dimensions. *)
Record Mat4 := mkMat4 { values : list F; nR : Z; nC : Z }.

(** Modelled from the spec: vec3.hpp is not part of the sources; [Vec3] is
    a 3-component vector whose components are read by name and which is
    built from three numbers. *)
Record Vec3 := mkVec3 { x : F; y : F; z : F }.

(** Modelled from the spec: [Vec3f] (vec3.hpp / trimesh.hpp, not part of
    the sources) is a 3-component vector read by index and built from
    three numbers. *)
Record Vec3f := mkVec3f { c0 : F; c1 : F; c2 : F }.

Definition Vec3f_at (v : Vec3f) (k : Z) : option F :=
  if decide (k = 0) then Some (c0 v)
  else if decide (k = 1) then Some (c1 v)
  else if decide (k = 2) then Some (c2 v)
  else None.

(** [values.resize(n)] on the empty vector: [n] value-initialised floats. *)
Definition resize (n : Z) : list F := replicate (Z.to_nat n) (f_of_int 0).

(** The member initialisers [nR(r), nC(c)] followed by
    [values.resize(nR * nC)]; a negative count, converted to [size_t],
    makes [resize] throw. *)
Definition alloc (r c : Z) : option Mat4 :=
  n ← int_ok (r * c);
  if decide (0 ≤ n) then Some (mkMat4 (resize n) r c) else None.

Definition get (m : Mat4) (i j : Z) : option F :=
  o ← offset i (nC m) j; vec_get (values m) o.

Definition set (m : Mat4) (i j : Z) (k : F) : option Mat4 :=
  o ← offset i (nC m) j;
  vs ← vec_set (values m) o k;
  Some (mkMat4 vs (nR m) (nC m)).

Definition setZeros (m : Mat4) : option Mat4 :=
  vs ← for2 (nR m) (nC m) (λ i j vs,
          o ← offset i (nC m) j; vec_set vs o (f_of_int 0)) (values m);
  Some (mkMat4 vs (nR m) (nC m)).

Definition setOnes (m : Mat4) : option Mat4 :=
  vs ← for2 (nR m) (nC m) (λ i j vs,
          o ← offset i (nC m) j; vec_set vs o (f_of_int 1)) (values m);
  Some (mkMat4 vs (nR m) (nC m)).

(** [(i == j)] is a [bool], converted to 1 or 0 by the assignment. *)
Definition setIdentity (m : Mat4) : option Mat4 :=
  vs ← for2 (nR m) (nC m) (λ i j vs,
          o ← offset i (nC m) j;
          vec_set vs o (f_of_int (if decide (i = j) then 1 else 0)))
        (values m);
  Some (mkMat4 vs (nR m) (nC m)).

(** The body of the loop of [setUniform], for the output [r] of [rand()]:
    [(float) rand() / RAND_MAX], then [low + randomNumber * (high - low)]. *)
Definition randomNumber `{RandGen G} (low high : F) (r : Z) : F :=
  let randomNumber := f_div (f_of_int r) (f_of_int RAND_MAX) in
  f_add low (f_mul randomNumber (f_sub high low)).

Definition setUniform `{RandGen G} (low high : F) (m : Mat4) (g : G)
  : option (Mat4 * G) :=
  st ← for2 (nR m) (nC m) (λ i j '(vs, g),
          let r := (rand g).1 in
          let g' := (rand g).2 in
          o ← offset i (nC m) j;
          vs ← vec_set vs o (randomNumber low high r);
          Some (vs, g')) (values m, g);
  let '(vs, g') := st in
  Some (mkMat4 vs (nR m) (nC m), g').

(** [explicit Mat4(enum INIT init = IDENTITY)]. *)
Definition Mat4_init (init : INIT) : option Mat4 :=
  this ← alloc 4 4;
  match init with
  | IDENTITY => setIdentity this
  | ONES => setOnes this
  | ZEROS => setZeros this
  | INIT_other => setIdentity this
  end.

(** The angle handed to [cos] and [sin]: [angleInDegrees / 180 * M_PI]. *)
Definition radians `{DoubleOps F D} (angleInDegrees : F) : D :=
  d_mul (d_of_float (f_div angleInDegrees (f_of_int 180))) M_PI.

(** [explicit Mat4(const float angleInDegrees)]. *)
Definition Mat4_rotation `{DoubleOps F D} (angleInDegrees : F)
  : option Mat4 :=
  this ← alloc 4 4;
  this ← setIdentity this;
  vs ← vec_set (values this) 0 (f_of_double (d_cos (radians angleInDegrees)));
  vs ← vec_set vs 1 (f_of_double (d_neg (d_sin (radians angleInDegrees))));
  vs ← vec_set vs 4 (f_of_double (d_sin (radians angleInDegrees)));
  vs ← vec_set vs 5 (f_of_double (d_cos (radians angleInDegrees)));
  Some (mkMat4 vs (nR this) (nC this)).

(** [explicit Mat4(const Vec3 translation)]. *)
Definition Mat4_translation (translation : Vec3) : option Mat4 :=
  this ← alloc 4 4;
  this ← setIdentity this;
  vs ← vec_set (values this) 3 (x translation);
  vs ← vec_set vs 7 (y translation);
  vs ← vec_set vs 11 (z translation);
  Some (mkMat4 vs (nR this) (nC this)).

(** [explicit Mat4(const float scaleX, scaleY, scaleZ)]. *)
Definition Mat4_scale (scaleX scaleY scaleZ : F) : option Mat4 :=
  this ← alloc 4 4;
  this ← setIdentity this;
  vs ← vec_set (values this) 0 scaleX;
  vs ← vec_set vs 5 scaleY;
  vs ← vec_set vs 10 scaleZ;
  Some (mkMat4 vs (nR this) (nC this)).

(** The loop nest of the two deep copies. *)
Definition copy_values (this m : Mat4) : option (list F) :=
  for2 (nR this) (nC this) (λ i j vs,
    o ← offset i (nC this) j;
    e ← vec_get (values m) o;
    vec_set vs o e) (values this).

(** [Mat4(const Mat4 &m)]. *)
Definition Mat4_copy (m : Mat4) : option Mat4 :=
  this ← alloc (nR m) (nC m);
  vs ← copy_values this m;
  Some (mkMat4 vs (nR this) (nC this)).

(** [void operator=(Mat4 const &m)]. *)
Definition assign (this m : Mat4) : option Mat4 :=
  vs ← copy_values this m;
  Some (mkMat4 vs (nR this) (nC this)).

(** [Mat4 operator~() const]: [result] is default-constructed, then
    overwritten. *)
Definition transpose (this : Mat4) : option Mat4 :=
  result ← Mat4_init IDENTITY;
  vs ← for2 (nR this) (nC this) (λ i j vs,
          src ← offset i (nC this) j;
          e ← vec_get (values this) src;
          dst ← offset j (nR this) i;
          vec_set vs dst e) (values result);
  Some (mkMat4 vs (nR result) (nC result)).

(** The shape shared by [operator+], [operator-] and [operator%]. *)
Definition elementwise (op : F → F → F) (this m : Mat4) : option Mat4 :=
  result ← Mat4_init IDENTITY;
  vs ← for2 (nR this) (nC this) (λ i j vs,
          o ← offset i (nC this) j;
          a ← vec_get (values this) o;
          b ← vec_get (values m) o;
          vec_set vs o (op a b)) (values result);
  Some (mkMat4 vs (nR result) (nC result)).

Definition add : Mat4 → Mat4 → option Mat4 := elementwise f_add.
Definition sub : Mat4 → Mat4 → option Mat4 := elementwise f_sub.
Definition hadamard : Mat4 → Mat4 → option Mat4 := elementwise f_mul.

(** [Mat4 operator*(Mat4 const &m) const]. *)
Definition mul (this m : Mat4) : option Mat4 :=
  result ← Mat4_init IDENTITY;
  vs ← for2 (nR this) (nC m) (λ i j vs,
          elementSum ← for_lt (nC this) (λ k elementSum,
              a ← (o ← offset i (nC this) k; vec_get (values this) o);
              b ← (o ← offset k (nC m) j; vec_get (values m) o);
              Some (f_add elementSum (f_mul a b))) (f_of_int 0);
          dst ← offset i (nC m) j;
          vec_set vs dst elementSum) (values result);
  Some (mkMat4 vs (nR result) (nC result)).

(** [Vec3f operator*(Vec3f const &v) const]. *)
Definition mul_vec (this : Mat4) (v : Vec3f) : option Vec3f :=
  let row (a b c : Z) : option F :=
    ma ← vec_get (values this) a; v0 ← Vec3f_at v 0;
    mb ← vec_get (values this) b; v1 ← Vec3f_at v 1;
    mc ← vec_get (values this) c; v2 ← Vec3f_at v 2;
    Some (f_add (f_add (f_mul ma v0) (f_mul mb v1)) (f_mul mc v2)) in
  r0 ← row 0 1 2;
  r1 ← row 4 5 6;
  r2 ← row 8 9 10;
  Some (mkVec3f r0 r1 r2).

(** [Mat4 operator*(float const &value) const]. *)
Definition mul_scalar (this : Mat4) (value : F) : option Mat4 :=
  result ← Mat4_init IDENTITY;
  vs ← for2 (nR this) (nC this) (λ i j vs,
          o ← offset i (nC this) j;
          a ← vec_get (values this) o;
          vec_set vs o (f_mul a value)) (values result);
  Some (mkMat4 vs (nR result) (nC result)).

(** [void dumpColumnWise(float *array) const]; the caller's array is a
    list, and a store past its end is undefined behaviour. *)
Definition dumpColumnWise (this : Mat4) (array : list F) : option (list F) :=
  for2 (nR this) (nC this) (λ i j array,
    src ← offset i (nC this) j;
    e ← vec_get (values this) src;
    dst ← offset j (nR this) i;
    vec_set array dst e) array.

(** [Vec3 getTranslationVec3() const]. *)
Definition getTranslationVec3 (this : Mat4) : option Vec3 :=
  a ← vec_get (values this) 3;
  b ← vec_get (values this) 7;
  c ← vec_get (values this) 11;
  Some (mkVec3 a b c).

(** What [operator<<] sends to the stream. *)
Inductive token := Value (v : F) | Space | Endl.

(** [std::ostream &operator<<(std::ostream &out, const Mat4 &m)]. *)
Definition print (out : list token) (m : Mat4) : option (list token) :=
  for_lt (nR m) (λ i out,
    out ← for_lt (nC m) (λ j out,
             o ← offset i (nC m) j;
             e ← vec_get (values m) o;
             Some (out ++ [Value e; Space])) out;
    Some (out ++ [Endl])) out.

End Mat4.

Arguments Mat4 F : clear implicits.
Arguments Vec3 F : clear implicits.
Arguments Vec3f F : clear implicits.
Arguments token F : clear implicits.

(** ** IEEE 754 arithmetic: the instance the compiled code runs on *)

Module IEEE.

(** [float] is binary32 and [double] binary64; both are values of
    [spec_float], rounded to nearest, ties to even. *)
Definition float : Type := spec_float.
Definition double : Type := spec_float.

(** Conversion of a floating-point value to the format [prec], [emax]. *)
Definition convert (prec emax : Z) (v : spec_float) : spec_float :=
  match v with
  | S754_finite s m e => binary_round prec emax s m e
  | _ => v
  end.

(** [(float) n] for an integer [n]. *)
Definition float_of_int (n : Z) : float := binary_normalize 24 128 n 0 false.

#[export] Instance float_ops : FloatOps float := {|
  f_of_int := float_of_int;
  f_add := SFadd 24 128;
  f_sub := SFsub 24 128;
  f_mul := SFmul 24 128;
  f_div := SFdiv 24 128
|}.

(** The macro [M_PI], 3.1415926535897932384626433832795, as the nearest
    double: 0x400921FB54442D18. *)
Definition M_PI_double : double := S754_finite false 7074237752028440 (-51).

(** The double computations, for a C library whose [cos] and [sin] are
    [libm_cos] and [libm_sin]. *)
Definition double_ops (libm_cos libm_sin : double → double)
  : DoubleOps float double := {|
  d_of_float := convert 53 1024;
  f_of_double := convert 24 128;
  d_mul := SFmul 53 1024;
  d_neg := SFopp;
  d_cos := libm_cos;
  d_sin := libm_sin;
  M_PI := M_PI_double
|}.

(** The comparisons [==], [<] and [<=] of the language on floats. *)
Definition eqb : float → float → bool := SFeqb.
Definition ltb : float → float → bool := SFltb.
Definition leb : float → float → bool := SFleb.

(** A float value of the format: finite values carry a canonical
    mantissa and exponent. *)
Definition is_float (v : float) : bool := valid_binary 24 128 v.

Definition is_finite (v : float) : bool :=
  match v with
  | S754_zero _ | S754_finite _ _ _ => true
  | _ => false
  end.

Definition is_zero (v : float) : bool :=
  match v with
  | S754_zero _ => true
  | _ => false
  end.

(** A finite value of the format: neither an infinity nor a NaN. *)
Definition finite_float (v : float) : Prop :=
  is_float v = true ∧ is_finite v = true.

(** The value [v] with a negative zero replaced by the positive one; it
    compares equal to [v]. *)
Definition drop_zero_sign (v : float) : float :=
  match v with
  | S754_zero _ => S754_zero false
  | _ => v
  end.

Definition infinity : float := S754_infinity false.

(** [FLT_MAX], the largest finite float. *)
Definition FLT_MAX : float := SFmax_float 24 128.

(** [(double) n] for an integer [n]. *)
Definition double_of_int (n : Z) : double := binary_normalize 53 1024 n 0 false.

(** A small stand-in for the C library, used to run the rotation
    constructor on examples: the first terms of the Taylor series of [cos]
    and [sin], evaluated in double. *)
Definition taylor_cos (t : double) : double :=
  SFsub 53 1024 (double_of_int 1)
    (SFdiv 53 1024 (SFmul 53 1024 t t) (double_of_int 2)).

Definition taylor_sin (t : double) : double :=
  SFmul 53 1024 t
    (SFsub 53 1024 (double_of_int 1)
       (SFdiv 53 1024 (SFmul 53 1024 t t) (double_of_int 6))).

End IEEE.

(** ** Exact arithmetic

    The same code read over the rationals, without rounding: what the
    formulas of the class compute before IEEE arithmetic rounds them. *)

Module Exact.

Definition rational_ops : FloatOps Q := {|
  f_of_int := inject_Z;
  f_add := Qplus;
  f_sub := Qminus;
  f_mul := Qmult;
  f_div := Qdiv
|}.

End Exact.

(** A generator that replays a given sequence of outputs, for a library
    whose [RAND_MAX] is [rmax]. *)
Definition replay (rmax : Z) : RandGen (list Z) := {|
  RAND_MAX := rmax;
  rand g := match g with [] => (0, []) | r :: g' => (r, g') end
|}.

(** ** Sample data *)

Module Sample.

Import IEEE.

(** The matrix with entries 1, 2, ..., 16 in row-major order. *)
Definition counting : Mat4 float := mkMat4 (map float_of_int (seqZ 1 16)) 4 4.

(** The matrix with entries 16, 15, ..., 1. *)
Definition descending : Mat4 float :=
  mkMat4 (map (λ k, float_of_int (17 - k)) (seqZ 1 16)) 4 4.

(** The zero matrix with an infinity stored at row 1, column 0. *)
Definition with_infinity : Mat4 float :=
  mkMat4 (<[4%nat := infinity]> (replicate 16 (float_of_int 0))) 4 4.

(** 1.5 as a float. *)
Definition one_and_half : float := S754_finite false 12582912 (-23).

(** The generator of a C library with [RAND_MAX] = 2147483647. *)
Definition glibc : RandGen (list Z) := replay 2147483647.

(** The double computations with the Taylor polynomials for [cos] and
    [sin]. *)
Definition libm : DoubleOps float double := double_ops taylor_cos taylor_sin.

End Sample.

(** ** Well-formed matrices *)

(** The class invariant: 4 rows, 4 columns, 16 stored elements. *)
Definition well_formed {F} (m : Mat4 F) : Prop :=
  nR m = 4 ∧ nC m = 4 ∧ length (values m) = 16%nat.

(** A valid row or column index. *)
Definition in_range (i : Z) : Prop := 0 ≤ i < 4.

(** Two states of a matrix with the same dimensions and the same number of
    stored elements: the vector was not resized in between. *)
Definition same_shape {F} (m m' : Mat4 F) : Prop :=
  nR m' = nR m ∧ nC m' = nC m ∧ length (values m') = length (values m).

(** ** Vocabulary of the statements *)

Section Vocabulary.

Context {F : Type} `{FloatOps F}.

(** The element at row [i], column [j] of a well-formed matrix. *)
Definition entry (m : Mat4 F) (i j : Z) : F :=
  default (f_of_int 0) (get m i j).

(** The sum over [k] in [0, 4) of [a[i][k] * b[k][j]], accumulated in
    increasing [k] from 0. *)
Definition row_by_column (a b : Mat4 F) (i j : Z) : F :=
  foldl (λ acc k, f_add acc (f_mul (entry a i k) (entry b k j)))
        (f_of_int 0) [0; 1; 2; 3].

(** The sum over [k] in 0..2 of [m[i][k] * v[k]], for the components
    [v0], [v1], [v2] of the vector. *)
Definition row_by_vector (m : Mat4 F) (v : Vec3f F) (i : Z) : F :=
  f_add (f_add (f_mul (entry m i 0) (c0 v)) (f_mul (entry m i 1) (c1 v)))
        (f_mul (entry m i 2) (c2 v)).

(** The state of the generator after [n] calls of [rand], and the output
    of the call that follows them. *)
Fixpoint nth_state `{RandGen G} (n : nat) (g : G) : G :=
  match n with
  | O => g
  | S n' => nth_state n' (rand g).2
  end.

Definition nth_draw `{RandGen G} (n : nat) (g : G) : Z :=
  (rand (nth_state n g)).1.

(** The text of one matrix: each row's four values, each followed by a
    space, and a line end after the row. *)
Definition rendering (m : Mat4 F) : list (token F) :=
  mjoin (map (λ i, mjoin (map (λ j, [Value (entry m i j); Space])
                              [0; 1; 2; 3]) ++ [Endl])
             [0; 1; 2; 3]).

End Vocabulary.

(** ** Tactics *)

(** A well-formed matrix is a record of 16 named elements; [explode m]
    exposes them so that the loops run on the list's spine. *)
Ltac explode m :=
  let vs := fresh "vs" in
  let Hr := fresh in
  let Hc := fresh in
  let Hl := fresh in
  match goal with
  | Hwf : well_formed m |- _ =>
      destruct m as [vs ? ?]; destruct Hwf as (Hr & Hc & Hl);
      simpl in Hr, Hc, Hl; subst;
      do 16 (destruct vs as [|? vs]; [discriminate Hl|]);
      destruct vs; [clear Hl|discriminate Hl]
  end.

(** The four values of a valid index. *)
Ltac index_cases i :=
  match goal with
  | Hi : in_range i |- _ =>
      let E := fresh in
      assert (i = 0 ∨ i = 1 ∨ i = 2 ∨ i = 3) as E by (unfold in_range in Hi; lia);
      clear Hi; destruct E as [->|[->|[->| ->]]]
  end.

(** Splits a run of the option monad that is known to have succeeded. *)
Ltac succeeded H :=
  repeat match type of H with
         | (?c ≫= _) = Some _ =>
             let E := fresh "E" in
             destruct c eqn:E; simpl in H; [|discriminate H]
         end.

(** Splits a conjunction into its conjuncts, without touching them. *)
Ltac conjuncts := repeat match goal with |- _ ∧ _ => split end.

(** * Properties *)

(** ** Subscripts and loops *)

Section Vectors.

Context {A : Type}.
Implicit Types (v : list A) (k : Z) (x : A).

Lemma int_ok_Some (n : Z) : INT_MIN ≤ n ≤ INT_MAX → int_ok n = Some n.
Proof. intros Hn. unfold int_ok. by rewrite decide_True. Qed.

Lemma offset_Some (i j : Z) :
  in_range i → in_range j → offset i 4 j = Some (i * 4 + j).
Proof.
  unfold in_range, offset. intros Hi Hj.
  rewrite int_ok_Some by (unfold INT_MIN, INT_MAX; lia). simpl.
  apply int_ok_Some. unfold INT_MIN, INT_MAX. lia.
Qed.

Lemma vec_get_lookup v k : 0 ≤ k → vec_get v k = v !! Z.to_nat k.
Proof. intros Hk. unfold vec_get. by rewrite decide_True. Qed.

Lemma vec_get_is_Some v k :
  0 ≤ k < Z.of_nat (length v) → is_Some (vec_get v k).
Proof.
  intros Hk. rewrite vec_get_lookup by lia.
  apply lookup_lt_is_Some. lia.
Qed.

Lemma vec_set_Some v k x :
  0 ≤ k < Z.of_nat (length v) →
  vec_set v k x = Some (<[Z.to_nat k := x]> v).
Proof.
  intros Hk. unfold vec_set.
  destruct (vec_get_is_Some v k Hk) as [old ->]. done.
Qed.

Lemma vec_set_length v v' k x :
  vec_set v k x = Some v' → length v' = length v.
Proof.
  unfold vec_set. destruct (vec_get v k); simpl; [|done].
  intros [= <-]. apply length_insert.
Qed.

End Vectors.

Section Access.

Context {F : Type} `{FloatOps F}.
Implicit Types (m : Mat4 F) (i j : Z).

Lemma get_lookup m i j :
  well_formed m → in_range i → in_range j →
  get m i j = values m !! Z.to_nat (i * 4 + j).
Proof.
  intros (_ & Hc & _) Hi Hj. unfold get. rewrite Hc, offset_Some by done.
  simpl. apply vec_get_lookup. unfold in_range in *. lia.
Qed.

Lemma get_is_Some m i j :
  well_formed m → in_range i → in_range j → is_Some (get m i j).
Proof.
  intros Hm Hi Hj. rewrite get_lookup by done.
  destruct Hm as (_ & _ & Hl). apply lookup_lt_is_Some.
  unfold in_range in *. lia.
Qed.

(** C10. After [set(i, j, v)] on a matrix with valid indices, [get(i, j)]
    returns [v] and every other valid position reads as before: [set]
    changes exactly one element (and keeps the matrix 4x4). *)
Theorem set_changes_one_element m i j (v : F) :
  well_formed m → in_range i → in_range j →
  ∃ m', set m i j v = Some m' ∧ well_formed m' ∧
        get m' i j = Some v ∧
        ∀ i' j', in_range i' → in_range j' → (i', j') ≠ (i, j) →
                 get m' i' j' = get m i' j'.
Proof.
  intros Hm Hi Hj. pose proof Hm as (Hr & Hc & Hl).
  assert (0 ≤ i * 4 + j < Z.of_nat (length (values m))) as Hk
    by (unfold in_range in *; lia).
  exists (mkMat4 (<[Z.to_nat (i * 4 + j) := v]> (values m)) (nR m) (nC m)).
  assert (well_formed
            (mkMat4 (<[Z.to_nat (i * 4 + j) := v]> (values m)) (nR m) (nC m)))
    as Hm' by (repeat split; simpl; [done..|by rewrite length_insert]).
  split; [|split; [done|split]].
  - unfold set. rewrite Hc, offset_Some by done. simpl.
    by rewrite vec_set_Some.
  - rewrite get_lookup by done. simpl.
    apply list_lookup_insert_eq. lia.
  - intros i' j' Hi' Hj' Hne. rewrite !get_lookup by done. simpl.
    apply list_lookup_insert_ne. unfold in_range in *.
    intros Heq. apply Hne. f_equal; lia.
Qed.

End Access.

(** ** Loops keep what their bodies keep *)

Section Loops.

Context {S : Type} (P : S → Prop).

Lemma iterate_invariant (body : Z → S → option S) (n : nat) :
  (∀ i s s', P s → body i s = Some s' → P s') →
  ∀ i s s', P s → iterate n i body s = Some s' → P s'.
Proof.
  intros Hbody. induction n as [|n IH]; simpl; intros i s s' Hs Hrun.
  - by injection Hrun as <-.
  - destruct (body i s) as [s1|] eqn:Hstep; simpl in Hrun; [|done].
    eapply IH; [|exact Hrun]. eauto.
Qed.

Lemma for2_invariant (body : Z → Z → S → option S) (r c : Z) :
  (∀ i j s s', P s → body i j s = Some s' → P s') →
  ∀ s s', P s → for2 r c body s = Some s' → P s'.
Proof.
  intros Hbody s s' Hs. unfold for2, for_lt.
  apply iterate_invariant; [|done].
  intros i s1 s2 Hs1. apply iterate_invariant; [|done].
  intros j. apply Hbody.
Qed.

End Loops.

(** ** The operators on well-formed matrices *)

Section Operators.

Context {F : Type} `{FloatOps F}.
Implicit Types (m a b : Mat4 F) (i j : Z).

Lemma get_entry m i j :
  well_formed m → in_range i → in_range j → get m i j = Some (entry m i j).
Proof.
  intros Hm Hi Hj. unfold entry.
  by destruct (get_is_Some m i j Hm Hi Hj) as [e ->].
Qed.

Lemma identity_well_formed :
  ∃ I : Mat4 F, Mat4_init IDENTITY = Some I ∧ well_formed I.
Proof. eexists. split; [reflexivity|]. by repeat split. Qed.

(** The product of two well-formed matrices, entry by entry. *)
Lemma mul_entry a b :
  well_formed a → well_formed b →
  ∃ r, mul a b = Some r ∧ well_formed r ∧
       ∀ i j, in_range i → in_range j →
              get r i j = Some (row_by_column a b i j).
Proof.
  intros Ha Hb. explode a. explode b. eexists. split; [reflexivity|].
  split; [by repeat split|].
  intros i j Hi Hj. index_cases i; index_cases j; reflexivity.
Qed.

(** C1. The matrix product of two matrices is a matrix whose entry at row
    [i], column [j] is the sum over [k] in [0, 4) of [a[i][k] * b[k][j]],
    accumulated in float arithmetic in increasing [k], starting from 0. *)
Theorem mul_is_row_by_column a b i j :
  well_formed a → well_formed b → in_range i → in_range j →
  ∃ r, mul a b = Some r ∧ well_formed r ∧
       get r i j =
         Some (f_add (f_add (f_add (f_add (f_of_int 0)
                 (f_mul (entry a i 0) (entry b 0 j)))
                 (f_mul (entry a i 1) (entry b 1 j)))
                 (f_mul (entry a i 2) (entry b 2 j)))
                 (f_mul (entry a i 3) (entry b 3 j))) ∧
       get r i j = Some (row_by_column a b i j).
Proof.
  intros Ha Hb Hi Hj.
  destruct (mul_entry a b Ha Hb) as (r & Hrun & Hr & Hget).
  exists r. rewrite (Hget i j Hi Hj).
  split; [done|]. split; [done|]. split; reflexivity.
Qed.

(** C4. Transposition returns a matrix [t] with [t[j][i] = m[i][j]] for all
    valid [i], [j]; transposing [t] gives back [m] itself. *)
Theorem transpose_involutive m :
  well_formed m →
  ∃ t, transpose m = Some t ∧ well_formed t ∧
       (∀ i j, in_range i → in_range j → get t j i = Some (entry m i j)) ∧
       transpose t = Some m.
Proof.
  intros Hm. explode m. eexists. split; [reflexivity|].
  split; [by repeat split|]. split; [|reflexivity].
  intros i j Hi Hj. index_cases i; index_cases j; reflexivity.
Qed.

Lemma mul_vec_rows m (v : Vec3f F) :
  well_formed m →
  mul_vec m v = Some (mkVec3f (row_by_vector m v 0) (row_by_vector m v 1)
                              (row_by_vector m v 2)).
Proof. intros Hm. explode m. reflexivity. Qed.

(** C2. The product of a matrix and a 3-vector has component [i] equal to
    the sum over [k] in 0..2 of [m[i][k] * v[k]]; it depends only on the
    top-left 3x3 block: a matrix with the same block gives the same
    result, and storing any value in the last column or the bottom row
    changes nothing. *)
Theorem mul_vec_uses_3x3_block m (v : Vec3f F) :
  well_formed m →
  mul_vec m v = Some (mkVec3f (row_by_vector m v 0) (row_by_vector m v 1)
                              (row_by_vector m v 2)) ∧
  (∀ m', well_formed m' →
         (∀ i j, 0 ≤ i < 3 → 0 ≤ j < 3 → get m' i j = get m i j) →
         mul_vec m' v = mul_vec m v) ∧
  (∀ i j (e : F) m', in_range i → in_range j → i = 3 ∨ j = 3 →
         set m i j e = Some m' → mul_vec m' v = mul_vec m v).
Proof.
  intros Hm. split; [by apply mul_vec_rows|]. split.
  - intros m' Hm' Hblock. rewrite !mul_vec_rows by done.
    unfold row_by_vector, entry.
    by rewrite !Hblock by lia.
  - intros i j e m' Hi Hj Hedge Hset. explode m.
    index_cases i; index_cases j; try lia;
      injection Hset as <-; reflexivity.
Qed.

(** C6. The translation constructor builds the identity matrix, 1 on the
    diagonal and 0 elsewhere, with the vector's components at row 0..2 of
    column 3 (offsets 3, 7, 11), and [getTranslationVec3] reads the same
    vector back. *)
Theorem translation_round_trip (t : Vec3 F) :
  ∃ m I, Mat4_translation t = Some m ∧ Mat4_init IDENTITY = Some I ∧
         well_formed m ∧
         get m 0 3 = Some (x t) ∧ get m 1 3 = Some (y t) ∧
         get m 2 3 = Some (z t) ∧
         values m !! 3%nat = Some (x t) ∧ values m !! 7%nat = Some (y t) ∧
         values m !! 11%nat = Some (z t) ∧
         (∀ i j, in_range i → in_range j → ¬ (i < 3 ∧ j = 3) →
                 get m i j = Some (f_of_int (if decide (i = j) then 1 else 0)) ∧
                 get m i j = get I i j) ∧
         values m = [f_of_int 1; f_of_int 0; f_of_int 0; x t;
                     f_of_int 0; f_of_int 1; f_of_int 0; y t;
                     f_of_int 0; f_of_int 0; f_of_int 1; z t;
                     f_of_int 0; f_of_int 0; f_of_int 0; f_of_int 1] ∧
         getTranslationVec3 m = Some t.
Proof.
  destruct t as [tx ty tz]. do 2 eexists.
  split; [reflexivity|]. split; [reflexivity|].
  split; [by repeat split|]. do 6 (split; [reflexivity|]).
  split; [|split; reflexivity].
  intros i j Hi Hj Hne.
  index_cases i; index_cases j; try (split; reflexivity); lia.
Qed.

(** C8. For a destination of at least 16 slots, [dumpColumnWise] stores
    [m[i][j]] at offset [i + j * 4] for every valid [i], [j] and leaves the
    slots from 16 on as they were; the identity matrix dumps as
    1,0,0,0, 0,1,0,0, 0,0,1,0, 0,0,0,1. *)
Theorem dump_is_column_major m (array : list F) :
  well_formed m → (16 ≤ length array)%nat →
  ∃ out, dumpColumnWise m array = Some out ∧
         length out = length array ∧
         (∀ i j, in_range i → in_range j →
                 vec_get out (i + j * 4) = Some (entry m i j)) ∧
         (∀ k, (16 ≤ k)%nat → out !! k = array !! k) ∧
         ∀ I, Mat4_init IDENTITY = Some I →
              dumpColumnWise I array =
                Some (map f_of_int [1; 0; 0; 0; 0; 1; 0; 0;
                                    0; 0; 1; 0; 0; 0; 0; 1]
                      ++ drop 16 array).
Proof.
  intros Hm Hlen. explode m.
  do 16 (destruct array as [|? array]; [simpl in Hlen; lia|]). clear Hlen.
  eexists. split; [reflexivity|]. split; [reflexivity|]. split; [|split].
  - intros i j Hi Hj. index_cases i; index_cases j; reflexivity.
  - intros k Hk. do 16 (destruct k as [|k]; [lia|]). reflexivity.
  - intros I [= <-]. reflexivity.
Qed.

End Operators.

(** ** The shape never changes, and nothing fails *)

Section Shape.

Context {F : Type} `{FloatOps F}.
Implicit Types (m a : Mat4 F) (i j : Z).

(** A loop nest whose body keeps the length of the vector keeps it. *)
Lemma for2_keeps_length (r c : Z) (body : Z → Z → list F → option (list F))
    (vs vs' : list F) :
  (∀ i j s s', body i j s = Some s' → length s' = length s) →
  for2 r c body vs = Some vs' → length vs' = length vs.
Proof.
  intros Hbody. apply (for2_invariant (λ l, length l = length vs)); [|done].
  intros i j s s' Hs Hstep. by rewrite (Hbody _ _ _ _ Hstep).
Qed.

Lemma set_same_shape m m' i j (k : F) : set m i j k = Some m' → same_shape m m'.
Proof.
  unfold set. intros Hset. succeeded Hset.
  injection Hset as <-. repeat split. simpl. eauto using vec_set_length.
Qed.

Lemma setZeros_same_shape m m' : setZeros m = Some m' → same_shape m m'.
Proof.
  unfold setZeros. intros Hrun. succeeded Hrun.
  injection Hrun as <-. repeat split. simpl.
  eapply for2_keeps_length; [|eassumption].
  simpl. intros i j s s' Hstep. succeeded Hstep. eauto using vec_set_length.
Qed.

Lemma setOnes_same_shape m m' : setOnes m = Some m' → same_shape m m'.
Proof.
  unfold setOnes. intros Hrun. succeeded Hrun.
  injection Hrun as <-. repeat split. simpl.
  eapply for2_keeps_length; [|eassumption].
  simpl. intros i j s s' Hstep. succeeded Hstep. eauto using vec_set_length.
Qed.

Lemma setIdentity_same_shape m m' : setIdentity m = Some m' → same_shape m m'.
Proof.
  unfold setIdentity. intros Hrun. succeeded Hrun.
  injection Hrun as <-. repeat split. simpl.
  eapply for2_keeps_length; [|eassumption].
  simpl. intros i j s s' Hstep. succeeded Hstep. eauto using vec_set_length.
Qed.

Lemma assign_same_shape m a m' : assign m a = Some m' → same_shape m m'.
Proof.
  unfold assign, copy_values. intros Hrun. succeeded Hrun.
  injection Hrun as <-. repeat split. simpl.
  eapply for2_keeps_length; [|eassumption].
  simpl. intros i j s s' Hstep. succeeded Hstep. eauto using vec_set_length.
Qed.

Lemma setUniform_same_shape `{RandGen G} m m' (low high : F) (g g' : G) :
  setUniform low high m g = Some (m', g') → same_shape m m'.
Proof.
  unfold setUniform. intros Hrun. succeeded Hrun.
  match goal with st : (list F * G)%type |- _ => destruct st as [vs g1] end.
  injection Hrun as <- <-. repeat split. simpl.
  revert E. apply (for2_invariant (λ st : list F * G,
                       length st.1 = length (values m))); [|done].
  intros i j [s g2] s' Hs Hstep. succeeded Hstep. injection Hstep as <-. simpl.
  rewrite <- Hs. eauto using vec_set_length.
Qed.

End Shape.

Section Totality.


Context {F : Type} `{FloatOps F} {D : Type} `{!DoubleOps F D}
        {G : Type} `{!RandGen G}.

Lemma set_well_formed (m : Mat4 F) (i j : Z) (e : F) :
  well_formed m → in_range i → in_range j →
  ∃ r, set m i j e = Some r ∧ well_formed r.
Proof.
  intros Hm Hi Hj. pose proof Hm as (Hr & Hc & Hl).
  unfold set. rewrite Hc, offset_Some by done. simpl.
  rewrite vec_set_Some by (unfold in_range in *; lia). simpl.
  eexists. split; [done|]. repeat split; simpl; [done..|].
  by rewrite length_insert.
Qed.

(** C9. Every constructor returns a 4x4 matrix of 16 elements; every
    member that works in place keeps the dimensions and the number of
    stored elements of whatever matrix it runs on; and on well-formed
    matrices, valid indices and a destination of at least 16 slots, every
    member returns, the matrices it returns being well-formed again. *)
Theorem four_by_four_and_total
    (m a : Mat4 F) (i j : Z) (e low high angle sx sy sz : F)
    (t : Vec3 F) (v : Vec3f F) (g : G) (array : list F)
    (out : list (token F)) (init : INIT) :
  well_formed m → well_formed a → in_range i → in_range j →
  (16 ≤ length array)%nat →
  ((∃ r, Mat4_init init = Some r ∧ well_formed r) ∧
   (∃ r, Mat4_rotation angle = Some r ∧ well_formed r) ∧
   (∃ r, Mat4_translation t = Some r ∧ well_formed r) ∧
   (∃ r, Mat4_scale sx sy sz = Some r ∧ well_formed r) ∧
   (∃ r, Mat4_copy m = Some r ∧ well_formed r)) ∧
  ((∀ n n' i' j', set n i' j' e = Some n' → same_shape n n') ∧
   (∀ n n', setZeros n = Some n' → same_shape n n') ∧
   (∀ n n', setOnes n = Some n' → same_shape n n') ∧
   (∀ n n', setIdentity n = Some n' → same_shape n n') ∧
   (∀ n n' g', setUniform low high n g = Some (n', g') → same_shape n n') ∧
   (∀ n n', assign n a = Some n' → same_shape n n')) ∧
  (is_Some (get m i j) ∧
   (∃ r, set m i j e = Some r ∧ well_formed r) ∧
   (∃ r, setZeros m = Some r ∧ well_formed r) ∧
   (∃ r, setOnes m = Some r ∧ well_formed r) ∧
   (∃ r, setIdentity m = Some r ∧ well_formed r) ∧
   (∃ r g', setUniform low high m g = Some (r, g') ∧ well_formed r) ∧
   (∃ r, assign m a = Some r ∧ well_formed r)) ∧
  ((∃ r, transpose m = Some r ∧ well_formed r) ∧
   (∃ r, add m a = Some r ∧ well_formed r) ∧
   (∃ r, sub m a = Some r ∧ well_formed r) ∧
   (∃ r, mul m a = Some r ∧ well_formed r) ∧
   (∃ r, mul_scalar m e = Some r ∧ well_formed r) ∧
   (∃ r, hadamard m a = Some r ∧ well_formed r) ∧
   is_Some (mul_vec m v) ∧
   (∃ r, dumpColumnWise m array = Some r ∧ length r = length array) ∧
   is_Some (getTranslationVec3 m) ∧
   is_Some (print out m)).
Proof.
  intros Hm Ha Hi Hj Hlen. split; [|split; [|split]].
  - conjuncts; [destruct init|..|explode m];
      (eexists; split; [reflexivity|by repeat split]).
  - conjuncts;
      eauto using set_same_shape, setZeros_same_shape, setOnes_same_shape,
        setIdentity_same_shape, setUniform_same_shape, assign_same_shape.
  - split; [by apply get_is_Some|]. split; [by apply set_well_formed|].
    explode m. explode a. conjuncts;
      (eexists; split; [reflexivity|by repeat split])
      || (do 2 eexists; split; [reflexivity|by repeat split]).
  - explode m. explode a.
    do 16 (destruct array as [|? array]; [simpl in Hlen; lia|]).
    conjuncts; try (eexists; split; [reflexivity|by repeat split]);
      by eexists.
Qed.

End Totality.

Import IEEE.

(** ** Binary32 arithmetic with 0 and 1 *)

Section Rounding.

(** A canonical mantissa [m] with exponent [e], multiplied by the mantissa
    of 1.0 (2^23, of exponent -23): rounding shifts the 23 zero bits out
    again and nothing is lost. *)


Variables (m : positive) (e : Z).
Hypothesis Hcanonical : fexp 24 128 (Zpos (digits2_pos m) + e) = e.

Lemma digits_shifted :
  Zdigits2 (Zpos (8388608 * m)) = Zpos (digits2_pos m) + 23.
Proof.
  change (8388608 * m)%positive
    with (m~0~0~0~0~0~0~0~0~0~0~0~0~0~0~0~0~0~0~0~0~0~0~0)%positive.
  simpl. lia.
Qed.

Lemma shr_fexp_canonical :
  shr_fexp 24 128 (Zpos m) e loc_Exact
  = ({| shr_m := Zpos m; shr_r := false; shr_s := false |}, e).
Proof.
  unfold shr_fexp. cbn [Zdigits2]. by rewrite Hcanonical, Z.sub_diag.
Qed.

Lemma shr_fexp_shifted :
  shr_fexp 24 128 (Zpos (8388608 * m)) (e - 23) loc_Exact
  = ({| shr_m := Zpos m; shr_r := false; shr_s := false |}, e).
Proof.
  unfold shr_fexp. rewrite digits_shifted.
  replace (Zpos (digits2_pos m) + 23 + (e - 23))
    with (Zpos (digits2_pos m) + e) by lia.
  rewrite Hcanonical. replace (e - (e - 23)) with 23 by lia.
  unfold shr. rewrite Z.sub_add. reflexivity.
Qed.

Lemma round_shifted (s : bool) :
  (e <=? 128 - 24) = true →
  binary_round_aux 24 128 s (Zpos (8388608 * m)) (e - 23) loc_Exact
  = S754_finite s m e.
Proof.
  intros He. unfold binary_round_aux. rewrite shr_fexp_shifted.
  cbn [shr_m loc_of_shr_record round_nearest_even].
  rewrite shr_fexp_canonical. cbn [shr_m]. by rewrite He.
Qed.

End Rounding.

Lemma mul_one_l (v : float) :
  is_float v = true → f_mul (f_of_int 1) v = v.
Proof.
  destruct v as [s|s| |s m e]; try (by destruct s); [done|].
  unfold is_float, valid_binary, bounded, canonical_mantissa.
  intros [Hc He]%andb_prop. apply Z.eqb_eq in Hc.
  change (f_mul (f_of_int 1) (S754_finite s m e))
    with (binary_round_aux 24 128 s (Zpos (8388608 * m)) (-23 + e) loc_Exact).
  replace (-23 + e) with (e - 23) by lia. by apply round_shifted.
Qed.

Lemma mul_one_r (v : float) :
  is_float v = true → f_mul v (f_of_int 1) = v.
Proof.
  destruct v as [s|s| |s m e]; try (by destruct s); [done|].
  unfold is_float, valid_binary, bounded, canonical_mantissa.
  intros [Hc He]%andb_prop. apply Z.eqb_eq in Hc.
  change (f_mul (S754_finite s m e) (f_of_int 1))
    with (binary_round_aux 24 128 (xorb s false) (Zpos (m * 8388608))
            (e + -23) loc_Exact).
  rewrite xorb_false_r, Pos.mul_comm.
  replace (e + -23) with (e - 23) by lia. by apply round_shifted.
Qed.

Lemma zero_mul_l (v : float) :
  is_finite v = true → is_zero (f_mul (f_of_int 0) v) = true.
Proof. by destruct v. Qed.

Lemma zero_mul_r (v : float) :
  is_finite v = true → is_zero (f_mul v (f_of_int 0)) = true.
Proof. by destruct v. Qed.

Lemma add_zero_product (p : float) :
  is_zero p = true → f_add (f_of_int 0) p = f_of_int 0.
Proof. by destruct p as [[]| | |]. Qed.

Lemma add_first_term (v : float) :
  is_finite v = true → f_add (f_of_int 0) v = drop_zero_sign v.
Proof. by destruct v as [[]| | |]. Qed.

Lemma add_later_zero (v p : float) :
  is_finite v = true → is_zero p = true →
  f_add (drop_zero_sign v) p = drop_zero_sign v.
Proof. destruct v as [[]| | |]; destruct p as [[]| | |]; done. Qed.

Lemma drop_zero_sign_eqb (v : float) :
  is_finite v = true → eqb (drop_zero_sign v) v = true.
Proof.
  destruct v as [s|s| |s m e]; try done. intros _.
  unfold eqb, SFeqb, drop_zero_sign, SFcompare.
  rewrite Z.compare_refl, Pos.compare_cont_refl. by destruct s.
Qed.

(** ** The identity matrix *)

Section Identity.

Context {F : Type} `{FloatOps F}.

Lemma identity_entry (I : Mat4 F) (i j : Z) :
  Mat4_init IDENTITY = Some I → in_range i → in_range j →
  entry I i j = f_of_int (if decide (i = j) then 1 else 0).
Proof.
  intros [= <-] Hi Hj. index_cases i; index_cases j; reflexivity.
Qed.

Lemma entry_Forall (P : F → Prop) (m : Mat4 F) (i j : Z) :
  well_formed m → Forall P (values m) → in_range i → in_range j →
  P (entry m i j).
Proof.
  intros Hm HP Hi Hj. pose proof (get_entry m i j Hm Hi Hj) as Hget.
  rewrite get_lookup in Hget by done.
  by eapply Forall_lookup_1.
Qed.
End Identity.

(** C5, as amended. For every matrix whose 16 entries are finite floats,
    [I * m] and [m * I] hold at every position the entry of [m] at that
    position, a negative zero coming back as the positive zero; under float
    [==] they are elementwise equal to [m]. *)
Theorem identity_is_neutral_on_finite (m : Mat4 float) :
  well_formed m → Forall finite_float (values m) →
  ∃ I l r, Mat4_init IDENTITY = Some I ∧
           mul I m = Some l ∧ mul m I = Some r ∧
           ∀ i j, in_range i → in_range j →
                  get l i j = Some (drop_zero_sign (entry m i j)) ∧
                  get r i j = Some (drop_zero_sign (entry m i j)) ∧
                  eqb (drop_zero_sign (entry m i j)) (entry m i j) = true.
Proof.
  intros Hm Hfin.
  destruct (identity_well_formed (F := float)) as (I & HI & HIwf).
  destruct (mul_entry I m HIwf Hm) as (l & Hl & _ & Hlget).
  destruct (mul_entry m I Hm HIwf) as (r & Hr & _ & Hrget).
  exists I, l, r. do 3 (split; [done|]). intros i j Hi Hj.
  assert (∀ k, in_range k → finite_float (entry m k j)) as Hcol
    by (intros k Hk; by apply entry_Forall).
  assert (∀ k, in_range k → finite_float (entry m i k)) as Hrow
    by (intros k Hk; by apply entry_Forall).
  assert (in_range 0 ∧ in_range 1 ∧ in_range 2 ∧ in_range 3)
    as (H0 & H1 & H2 & H3) by (unfold in_range; lia).
  destruct (Hcol 0 H0), (Hcol 1 H1), (Hcol 2 H2), (Hcol 3 H3).
  destruct (Hrow 0 H0), (Hrow 1 H1), (Hrow 2 H2), (Hrow 3 H3).
  rewrite Hlget, Hrget by done. unfold row_by_column. cbn [foldl].
  rewrite !(identity_entry I) by done.
  split; [|split].
  - f_equal. index_cases i;
      repeat (rewrite decide_True by lia || rewrite decide_False by lia);
      rewrite mul_one_l by done;
      repeat (rewrite add_zero_product by (by apply zero_mul_l));
      rewrite add_first_term by done;
      repeat (rewrite add_later_zero by (done || by apply zero_mul_l));
      done.
  - f_equal. index_cases j;
      repeat (rewrite decide_True by lia || rewrite decide_False by lia);
      rewrite mul_one_r by done;
      repeat (rewrite add_zero_product by (by apply zero_mul_r));
      rewrite add_first_term by done;
      repeat (rewrite add_later_zero by (done || by apply zero_mul_r));
      done.
  - apply drop_zero_sign_eqb. by apply (Hcol i).
Qed.

(** C5, as stated, fails when an entry is infinite. With an infinity at
    row 1, column 0 of the zero matrix, [I * m] holds a NaN at row 0,
    column 0 (0 * infinity), where [m] holds 0; [m * I] holds a NaN at
    row 1, column 1, where [m] holds 0. *)
Lemma identity_times_infinity :
  well_formed Sample.with_infinity ∧
  ∃ I l r, Mat4_init IDENTITY = Some I ∧
           mul I Sample.with_infinity = Some l ∧
           mul Sample.with_infinity I = Some r ∧
           get Sample.with_infinity 0 0 = Some (S754_zero false) ∧
           get l 0 0 = Some S754_nan ∧
           eqb S754_nan (S754_zero false) = false ∧
           get Sample.with_infinity 1 1 = Some (S754_zero false) ∧
           get r 1 1 = Some S754_nan.
Proof.
  split; [by repeat split|].
  do 3 eexists. split; [reflexivity|].
  split; [vm_compute; reflexivity|]. split; [vm_compute; reflexivity|].
  repeat split.
Qed.

(** ** The rotation constructor *)

Section Rotation.

Context {F : Type} `{FloatOps F} {D : Type} `{!DoubleOps F D}.

(** The 16 values stored by the rotation constructor. *)
Lemma rotation_values (a : F) :
  Mat4_rotation a =
  Some (mkMat4
          [f_of_double (d_cos (radians a));
           f_of_double (d_neg (d_sin (radians a)));
           f_of_int 0; f_of_int 0;
           f_of_double (d_sin (radians a));
           f_of_double (d_cos (radians a));
           f_of_int 0; f_of_int 0;
           f_of_int 0; f_of_int 0; f_of_int 1; f_of_int 0;
           f_of_int 0; f_of_int 0; f_of_int 0; f_of_int 1] 4 4).
Proof. reflexivity. Qed.

End Rotation.

Lemma radians_of_zero (libm_cos libm_sin : double → double) (s : bool) :
  radians (H0 := double_ops libm_cos libm_sin) (S754_zero s) = S754_zero s.
Proof. by destruct s. Qed.

(** C7, as amended. The rotation constructor hands
    [angleInDegrees / 180 * M_PI] to [cos] and [sin] and builds the
    identity matrix with its top-left 2x2 block replaced by
    cos, -sin / sin, cos: every entry outside the block is 1 on the
    diagonal and 0 elsewhere. For a C library with cos(0) = 1 and
    sin(0) = 0 (zeros of either sign), the matrix built from the angle 0
    compares equal ([==]) at every position to 1 on the diagonal and 0
    elsewhere; it stores 1, -sin(0), 0, 0 / sin(0), 1, 0, 0 / 0, 0, 1, 0 /
    0, 0, 0, 1, where -sin(0) is the zero of the sign opposite to the
    angle's. *)
Theorem rotation_about_z {F : Type} `{FloatOps F} {D : Type} `{!DoubleOps F D}
    (a : F) (libm_cos libm_sin : double → double) (s : bool) :
  (∀ s', libm_cos (S754_zero s') = double_of_int 1) →
  (∀ s', libm_sin (S754_zero s') = S754_zero s') →
  (radians a = d_mul (d_of_float (f_div a (f_of_int 180))) M_PI ∧
   ∃ m, Mat4_rotation a = Some m ∧ well_formed m ∧
        get m 0 0 = Some (f_of_double (d_cos (radians a))) ∧
        get m 0 1 = Some (f_of_double (d_neg (d_sin (radians a)))) ∧
        get m 1 0 = Some (f_of_double (d_sin (radians a))) ∧
        get m 1 1 = Some (f_of_double (d_cos (radians a))) ∧
        ∀ i j, in_range i → in_range j → ¬ (i < 2 ∧ j < 2) →
               get m i j = Some (f_of_int (if decide (i = j) then 1 else 0))) ∧
  (∃ m, Mat4_rotation (H0 := double_ops libm_cos libm_sin) (S754_zero s)
          = Some m ∧
        values m =
          [f_of_int 1; S754_zero (negb s); f_of_int 0; f_of_int 0;
           S754_zero s; f_of_int 1; f_of_int 0; f_of_int 0;
           f_of_int 0; f_of_int 0; f_of_int 1; f_of_int 0;
           f_of_int 0; f_of_int 0; f_of_int 0; f_of_int 1] ∧
        get m 0 1 = Some (S754_zero (negb s)) ∧
        ∀ i j, in_range i → in_range j →
               ∃ u, get m i j = Some u ∧
                    eqb u (f_of_int (if decide (i = j) then 1 else 0)) = true).
Proof.
  intros Hcos Hsin. split.
  - split; [reflexivity|]. eexists.
    split; [apply rotation_values|].
    split; [by repeat split|]. do 4 (split; [reflexivity|]).
    intros i j Hi Hj Hblock.
    index_cases i; index_cases j; try reflexivity; lia.
  - eexists. split; [apply rotation_values|].
    rewrite radians_of_zero. cbn [d_cos d_sin d_neg f_of_double double_ops].
    rewrite Hcos, Hsin. split; [reflexivity|]. split; [reflexivity|].
    intros i j Hi Hj.
    index_cases i; index_cases j; eexists;
      (split; [reflexivity|by destruct s]).
Qed.

(** C7, as stated, fails at the angle 0: the matrix built is not the
    identity matrix. With cos(0) = 1 and sin(0) = 0 the constructor stores
    -sin(0), the negative zero, at offset 1, where the identity matrix holds
    +0; the two values compare equal but are not the same float
    (1 / -0 is -infinity, 1 / +0 is +infinity). This holds for the Taylor
    stand-in and for every C library with cos(0) = 1 and sin(0) = 0. *)
Lemma rotation_by_zero_stores_negative_zero :
  (∃ m I, Mat4_rotation (H0 := Sample.libm) (S754_zero false) = Some m ∧
          Mat4_init IDENTITY = Some I ∧
          values m !! 1%nat = Some (S754_zero true) ∧
          values I !! 1%nat = Some (S754_zero false) ∧
          get m 0 1 = Some (S754_zero true) ∧
          get I 0 1 = Some (S754_zero false) ∧
          eqb (S754_zero true) (S754_zero false) = true ∧
          f_div (f_of_int 1) (S754_zero true) = S754_infinity true ∧
          f_div (f_of_int 1) (S754_zero false) = S754_infinity false) ∧
  (∀ libm_cos libm_sin : double → double,
     (∀ s', libm_cos (S754_zero s') = double_of_int 1) →
     (∀ s', libm_sin (S754_zero s') = S754_zero s') →
     ∀ m, Mat4_rotation (H0 := double_ops libm_cos libm_sin)
            (S754_zero false) = Some m →
          get m 0 1 = Some (S754_zero true)).
Proof.
  split.
  - do 2 eexists. split; [vm_compute; reflexivity|].
    split; [reflexivity|]. repeat split.
  - intros libm_cos libm_sin Hcos Hsin m Hm.
    rewrite rotation_values, radians_of_zero in Hm.
    cbn [d_cos d_sin d_neg f_of_double double_ops] in Hm.
    rewrite Hsin in Hm. injection Hm as <-. reflexivity.
Qed.

(** ** The uniform fill *)

Section Uniform.

Context {F : Type} `{FloatOps F} {G : Type} `{!RandGen G}.

(** [setUniform] draws 16 numbers, one per element in row-major order, and
    stores the rescaled draws. *)
Lemma setUniform_values (low high : F) (m : Mat4 F) (g : G) :
  well_formed m →
  setUniform low high m g =
  Some (mkMat4 (map (λ n, randomNumber low high (nth_draw n g)) (seq 0 16))
               4 4,
        nth_state 16 g).
Proof. intros Hm. explode m. reflexivity. Qed.

End Uniform.

(** In exact arithmetic the rescaled draw lies between the two bounds,
    both included. *)
Lemma exact_rescaling_bounds (lo hi : Q) (r R : Z) :
  (lo <= hi)%Q → 0 ≤ r ≤ R → 0 < R →
  (0 <= inject_Z r / inject_Z R <= 1)%Q ∧
  (lo <= lo + inject_Z r / inject_Z R * (hi - lo) <= hi)%Q.
Proof.
  intros Hlh Hr HR.
  assert (0 < inject_Z R)%Q as HRq
    by (change 0%Q with (inject_Z 0); rewrite <- Zlt_Qlt; lia).
  assert (0 <= inject_Z r / inject_Z R <= 1)%Q as Hu.
  { split.
    - apply Qle_shift_div_l; [done|]. rewrite Qmult_0_l.
      change 0%Q with (inject_Z 0). rewrite <- Zle_Qle. lia.
    - apply Qle_shift_div_r; [done|]. rewrite Qmult_1_l.
      rewrite <- Zle_Qle. lia. }
  split; [done|].
  set (u := (inject_Z r / inject_Z R)%Q) in *. split; nra.
Qed.

(** C3, as amended. [setUniform(low, high)] calls [rand()] 16 times and
    stores, at row [i] and column [j], [low + u * (high - low)] computed in
    float arithmetic from the draw [r] number [i * 4 + j], with
    [u = (float) r / RAND_MAX]. A draw lies between 0 and [RAND_MAX], both
    included: read in exact arithmetic, for [low <= high], every one of the
    16 stored values lies in the closed interval [low, high], whatever the
    generator's outputs. *)
Theorem setUniform_rescales_draws
    {F : Type} `{FloatOps F} {G : Type} `{!RandGen G}
    (low high : F) (m : Mat4 F) (lo hi : Q) (mq : Mat4 Q) (g : G) :
  well_formed m → well_formed mq → (lo <= hi)%Q → 0 < RAND_MAX →
  (∀ n, (n < 16)%nat → 0 ≤ nth_draw n g ≤ RAND_MAX) →
  (∃ m', setUniform low high m g = Some (m', nth_state 16 g) ∧
         well_formed m' ∧
         ∀ i j, in_range i → in_range j →
                get m' i j =
                Some (f_add low
                        (f_mul (f_div (f_of_int (nth_draw (Z.to_nat (i * 4 + j)) g))
                                      (f_of_int RAND_MAX))
                               (f_sub high low)))) ∧
  (∃ m', setUniform (H := Exact.rational_ops) lo hi mq g
           = Some (m', nth_state 16 g) ∧
         ∀ i j, in_range i → in_range j →
                ∃ v, get m' i j = Some v ∧ (lo <= v <= hi)%Q).
Proof.
  intros Hm Hmq Hlh Hmax Hdraws. split.
  - eexists. split; [by apply setUniform_values|].
    split; [by repeat split|].
    intros i j Hi Hj. index_cases i; index_cases j; reflexivity.
  - eexists. split; [by apply (setUniform_values (H := Exact.rational_ops))|].
    intros i j Hi Hj.
    exists (randomNumber (H := Exact.rational_ops) lo hi
              (nth_draw (Z.to_nat (i * 4 + j)) g)).
    split; [index_cases i; index_cases j; reflexivity|].
    apply exact_rescaling_bounds; [done| |done].
    apply Hdraws. unfold in_range in *. lia.
Qed.

(** C3, as stated, fails. With [RAND_MAX] = 2147483647:
    - a draw equal to [RAND_MAX], and already [RAND_MAX - 1], gives
      [u = 1], and [setUniform(0, 1)] stores 1, which is not below [high];
    - [setUniform(2, 2)] stores 2, and no value lies in [2, 2);
    - rounding can leave the interval: [setUniform(-16777216, 1.5)] stores
      2 for the draw [RAND_MAX];
    - [setUniform(-FLT_MAX, FLT_MAX)] stores a NaN for the draw 0. *)
Lemma setUniform_leaves_half_open_interval :
  let uniform low high draws :=
    m ← Mat4_init IDENTITY;
    r ← setUniform (H0 := Sample.glibc) low high m (replicate 16 draws);
    get r.1 0 0 in
  (f_div (f_of_int 2147483647) (f_of_int 2147483647) : float) = f_of_int 1 ∧
  (f_div (f_of_int 2147483646) (f_of_int 2147483647) : float) = f_of_int 1 ∧
  ltb (f_of_int 1) (f_of_int 1) = false ∧
  uniform (f_of_int 0) (f_of_int 1) 2147483647 = Some (f_of_int 1) ∧
  leb (f_of_int 2) (f_of_int 2) = true ∧
  uniform (f_of_int 2) (f_of_int 2) 5 = Some (f_of_int 2) ∧
  ltb (f_of_int 2) (f_of_int 2) = false ∧
  leb (f_of_int (-16777216)) Sample.one_and_half = true ∧
  uniform (f_of_int (-16777216)) Sample.one_and_half 2147483647
    = Some (f_of_int 2) ∧
  leb (f_of_int 2) Sample.one_and_half = false ∧
  leb (SFopp FLT_MAX) FLT_MAX = true ∧
  uniform (SFopp FLT_MAX) FLT_MAX 0 = Some S754_nan ∧
  leb (SFopp FLT_MAX) S754_nan = false.
Proof. cbv zeta. repeat split; vm_compute; reflexivity. Qed.

(** ** The theorems at work on sample data *)

Section Witnesses.

Import Sample.

Lemma counting_well_formed : well_formed counting.
Proof. by repeat split. Qed.

Lemma descending_well_formed : well_formed descending.
Proof. by repeat split. Qed.

Lemma in_range_0 : in_range 0.
Proof. unfold in_range. lia. Qed.

Lemma in_range_1 : in_range 1.
Proof. unfold in_range. lia. Qed.

Lemma in_range_2 : in_range 2.
Proof. unfold in_range. lia. Qed.

(** Row 0 of [counting] by column 0 of [descending]:
    1 * 16 + 2 * 12 + 3 * 8 + 4 * 4 = 80. *)
Lemma mul_is_row_by_column_witness :
  ∃ r, mul counting descending = Some r ∧ get r 0 0 = Some (float_of_int 80).
Proof.
  destruct (mul_is_row_by_column counting descending 0 0
              counting_well_formed descending_well_formed
              in_range_0 in_range_0) as (r & Hrun & _ & Hget & _).
  exists r. split; [exact Hrun|]. rewrite Hget. vm_compute. reflexivity.
Defined.

(** [counting] times (1, 1, 1): the sums of the first three entries of rows
    0, 1 and 2. *)
Lemma mul_vec_uses_3x3_block_witness :
  mul_vec counting (mkVec3f (float_of_int 1) (float_of_int 1) (float_of_int 1))
  = Some (mkVec3f (float_of_int 6) (float_of_int 18) (float_of_int 30)).
Proof.
  destruct (mul_vec_uses_3x3_block counting
              (mkVec3f (float_of_int 1) (float_of_int 1) (float_of_int 1))
              counting_well_formed) as (Hrun & _).
  rewrite Hrun. vm_compute. reflexivity.
Defined.

(** Sixteen draws of 1073741824, half of 2^31, rescaled to [0, 8]: every
    element is 4. *)
Lemma setUniform_rescales_draws_witness :
  ∃ m', setUniform (H0 := glibc) (float_of_int 0) (float_of_int 8) counting
          (replicate 16 1073741824) = Some (m', []) ∧
        get m' 2 3 = Some (float_of_int 4).
Proof.
  assert (well_formed (mkMat4 (replicate 16 0%Q) 4 4)) as Hexact
    by (by repeat split).
  assert (0 <= 8)%Q as Hbounds by (vm_compute; discriminate).
  assert (0 < RAND_MAX (RandGen := glibc)) as Hmax by (vm_compute; reflexivity).
  assert (∀ n, (n < 16)%nat →
               0 ≤ nth_draw (H0 := glibc) n (replicate 16 1073741824)
                 ≤ RAND_MAX (RandGen := glibc)) as Hdraws
    by (intros n Hn; do 16 (destruct n as [|n]; [vm_compute; by split|]); lia).
  destruct (setUniform_rescales_draws (RandGen0 := glibc)
              (float_of_int 0) (float_of_int 8) counting 0%Q 8%Q
              (mkMat4 (replicate 16 0%Q) 4 4)
              (replicate 16 1073741824) counting_well_formed
              Hexact Hbounds Hmax Hdraws)
    as ((m' & Hrun & _ & Hget) & _).
  exists m'. split; [exact Hrun|].
  rewrite (Hget 2 3) by (unfold in_range; lia). vm_compute. reflexivity.
Defined.

Lemma transpose_involutive_witness :
  ∃ t, transpose counting = Some t ∧ get t 3 0 = Some (float_of_int 4) ∧
       transpose t = Some counting.
Proof.
  destruct (transpose_involutive counting counting_well_formed)
    as (t & Hrun & _ & Hget & Hback).
  exists t. split; [exact Hrun|]. split; [|exact Hback].
  rewrite (Hget 0 3) by (unfold in_range; lia). vm_compute. reflexivity.
Defined.

Lemma identity_is_neutral_on_finite_witness :
  ∃ I l, Mat4_init IDENTITY = Some I ∧ mul I counting = Some l ∧
         get l 1 2 = Some (float_of_int 7).
Proof.
  assert (Forall finite_float (values counting)) as Hfinite
    by (repeat constructor).
  destruct (identity_is_neutral_on_finite counting counting_well_formed
              Hfinite) as (I & l & r & HI & Hl & _ & Hget).
  exists I, l. split; [exact HI|]. split; [exact Hl|].
  destruct (Hget 1 2 in_range_1 in_range_2) as (Hleft & _).
  rewrite Hleft. vm_compute. reflexivity.
Defined.

(** With the Taylor polynomials for [cos] and [sin], the rotation by the
    angle +0 stores a negative zero at row 0, column 1. *)
Lemma rotation_about_z_witness :
  ∃ m, Mat4_rotation (H0 := libm) (S754_zero false) = Some m ∧
       get m 0 1 = Some (S754_zero true).
Proof.
  assert (∀ s', taylor_cos (S754_zero s') = double_of_int 1) as Hcos
    by (intros []; vm_compute; reflexivity).
  assert (∀ s', taylor_sin (S754_zero s') = S754_zero s') as Hsin
    by (intros []; vm_compute; reflexivity).
  destruct (rotation_about_z (DoubleOps0 := libm) (float_of_int 90)
              taylor_cos taylor_sin false Hcos Hsin)
    as (_ & m & Hrun & _ & Hget & _).
  exists m. split; [exact Hrun|exact Hget].
Defined.

Lemma dump_is_column_major_witness :
  ∃ out, dumpColumnWise counting (replicate 16 (float_of_int 0)) = Some out ∧
         vec_get out 1 = Some (float_of_int 5).
Proof.
  assert (16 ≤ length (replicate 16 (float_of_int 0)))%nat as Hlen
    by (vm_compute; lia).
  destruct (dump_is_column_major counting (replicate 16 (float_of_int 0))
              counting_well_formed Hlen) as (out & Hrun & _ & Hget & _).
  exists out. split; [exact Hrun|].
  etrans; [exact (Hget 1 0 in_range_1 in_range_0)|].
  vm_compute. reflexivity.
Defined.

Lemma four_by_four_and_total_witness :
  (∃ r, mul counting descending = Some r ∧ well_formed r) ∧
  (∃ r g', setUniform (H0 := glibc) (float_of_int 0) (float_of_int 1)
             counting (replicate 16 7) = Some (r, g') ∧ well_formed r).
Proof.
  assert (16 ≤ length (replicate 16 (float_of_int 0)))%nat as Hlen
    by (vm_compute; lia).
  destruct (four_by_four_and_total (DoubleOps0 := libm) (RandGen0 := glibc)
              counting descending 1 2 (float_of_int 9)
              (float_of_int 0) (float_of_int 1) (float_of_int 90)
              (float_of_int 2) (float_of_int 3) (float_of_int 4)
              (mkVec3 (float_of_int 1) (float_of_int 2) (float_of_int 3))
              (mkVec3f (float_of_int 1) (float_of_int 2) (float_of_int 3))
              (replicate 16 7) (replicate 16 (float_of_int 0)) [] ONES
              counting_well_formed descending_well_formed
              in_range_1 in_range_2 Hlen)
    as (_ & _ & (_ & _ & _ & _ & _ & Huniform & _) & (_ & _ & _ & Hmul & _)).
  split; [exact Hmul|exact Huniform].
Defined.

Lemma set_changes_one_element_witness :
  ∃ m', set counting 1 2 (float_of_int 42) = Some m' ∧
        get m' 1 2 = Some (float_of_int 42) ∧
        get m' 2 1 = Some (float_of_int 10).
Proof.
  destruct (set_changes_one_element counting 1 2 (float_of_int 42)
              counting_well_formed in_range_1 in_range_2)
    as (m' & Hset & _ & Hget & Hframe).
  exists m'. split; [exact Hset|]. split; [exact Hget|].
  rewrite (Hframe 2 1) by (done || unfold in_range; lia).
  vm_compute. reflexivity.
Defined.

End Witnesses.

(** * Further properties of the class *)

(** ** Matrices as their 16 elements *)

Section Extensionality.

Context {F : Type} `{FloatOps F}.
Implicit Types (m a b : Mat4 F) (i j : Z).

(** Two well-formed matrices with the same element at every valid
    position are the same matrix. *)
Lemma mat4_ext a b :
  well_formed a → well_formed b →
  (∀ i j, in_range i → in_range j → get a i j = get b i j) → a = b.
Proof.
  intros Ha Hb Hget. explode a. explode b.
  assert (in_range 0 ∧ in_range 1 ∧ in_range 2 ∧ in_range 3)
    as (H0 & H1 & H2 & H3) by (unfold in_range; lia).
  pose proof (Hget 0 0 H0 H0) as E00. pose proof (Hget 0 1 H0 H1) as E01.
  pose proof (Hget 0 2 H0 H2) as E02. pose proof (Hget 0 3 H0 H3) as E03.
  pose proof (Hget 1 0 H1 H0) as E10. pose proof (Hget 1 1 H1 H1) as E11.
  pose proof (Hget 1 2 H1 H2) as E12. pose proof (Hget 1 3 H1 H3) as E13.
  pose proof (Hget 2 0 H2 H0) as E20. pose proof (Hget 2 1 H2 H1) as E21.
  pose proof (Hget 2 2 H2 H2) as E22. pose proof (Hget 2 3 H2 H3) as E23.
  pose proof (Hget 3 0 H3 H0) as E30. pose proof (Hget 3 1 H3 H1) as E31.
  pose proof (Hget 3 2 H3 H2) as E32. pose proof (Hget 3 3 H3 H3) as E33.
  clear Hget.
  injection E00 as ->. injection E01 as ->. injection E02 as ->.
  injection E03 as ->. injection E10 as ->. injection E11 as ->.
  injection E12 as ->. injection E13 as ->. injection E20 as ->.
  injection E21 as ->. injection E22 as ->. injection E23 as ->.
  injection E30 as ->. injection E31 as ->. injection E32 as ->.
  injection E33 as ->. reflexivity.
Qed.

End Extensionality.

(** ** Construction modes and the mutators that fill a matrix *)

Section Filling.

Context {F : Type} `{FloatOps F}.
Implicit Types (m a b : Mat4 F) (i j : Z).

(** X1. The tag constructor: IDENTITY stores 1 on the diagonal and 0
    elsewhere, ONES stores 1 everywhere, ZEROS stores 0 everywhere, and a
    tag that names no enumerator builds the identity as well. *)
Theorem init_modes i j :
  in_range i → in_range j →
  ∃ I O Z, Mat4_init IDENTITY = Some I ∧ Mat4_init ONES = Some O ∧
           Mat4_init ZEROS = Some Z ∧ Mat4_init INIT_other = Some I ∧
           get I i j = Some (f_of_int (if decide (i = j) then 1 else 0)) ∧
           get O i j = Some (f_of_int 1) ∧
           get Z i j = Some (f_of_int 0).
Proof.
  intros Hi Hj. do 3 eexists. do 4 (split; [reflexivity|]).
  index_cases i; index_cases j; repeat split.
Qed.

(** X2. [setZeros], [setOnes] and [setIdentity] overwrite all 16 elements:
    whatever a well-formed matrix held, it becomes the matrix the
    constructor builds for ZEROS, ONES and IDENTITY. *)
Theorem fill_forgets_content m :
  well_formed m →
  setZeros m = Mat4_init ZEROS ∧ setOnes m = Mat4_init ONES ∧
  setIdentity m = Mat4_init IDENTITY.
Proof. intros Hm. explode m. by repeat split. Qed.

(** X3. The copy constructor and the assignment operator copy all 16
    elements: the copy of a well-formed matrix is that matrix, and after
    [this = m] the target holds [m], whatever it held before. *)
Theorem copies_are_equal this m :
  well_formed this → well_formed m →
  Mat4_copy m = Some m ∧ assign this m = Some m.
Proof. intros Hthis Hm. explode this. explode m. by split. Qed.

End Filling.

(** ** Where subscripts are defined *)

Section Subscripts.

Context {F : Type} `{FloatOps F}.
Implicit Types (m : Mat4 F) (i j : Z).

Lemma offset_defined (i j o : Z) :
  offset i 4 j = Some o ↔
  o = i * 4 + j ∧ INT_MIN ≤ i * 4 ≤ INT_MAX ∧ INT_MIN ≤ i * 4 + j ≤ INT_MAX.
Proof.
  unfold offset, int_ok. destruct (decide (INT_MIN ≤ i * 4 ≤ INT_MAX)); simpl.
  - destruct (decide (INT_MIN ≤ i * 4 + j ≤ INT_MAX)); split.
    + intros [= <-]. done.
    + by intros (-> & _).
    + done.
    + intros (_ & _ & ?). done.
  - split; [done|]. intros (_ & ? & _). done.
Qed.

(** X4. [get] and [set] check nothing but go through the linear offset
    [i * 4 + j]: on a well-formed matrix they are defined exactly when that
    offset, computed without [int] overflow, falls in [0, 16), whether or
    not [i] and [j] are valid on their own; [get] then reads the element
    stored at that offset, so two index pairs with the same offset read
    the same element, and [set] through one pair is read back through the
    other ([i * 4] not overflowing for either pair). *)
Theorem access_goes_through_offset m i j (v : F) :
  well_formed m →
  let defined := INT_MIN ≤ i * 4 ≤ INT_MAX ∧ 0 ≤ i * 4 + j < 16 in
  (is_Some (get m i j) ↔ defined) ∧
  (is_Some (set m i j v) ↔ defined) ∧
  (defined → get m i j = values m !! Z.to_nat (i * 4 + j)) ∧
  (∀ i' j' m', INT_MIN ≤ i * 4 ≤ INT_MAX → INT_MIN ≤ i' * 4 ≤ INT_MAX →
               i' * 4 + j' = i * 4 + j →
               (get m i' j' = get m i j) ∧
               (set m i j v = Some m' → get m' i' j' = Some v)).
Proof.
  intros Hm defined. pose proof Hm as (Hr & Hc & Hl).
  assert (∀ a b, INT_MIN ≤ a * 4 ≤ INT_MAX → 0 ≤ a * 4 + b < 16 →
                 offset a 4 b = Some (a * 4 + b)) as Hoff.
  { intros a b Ha Hb. apply offset_defined.
    unfold INT_MIN, INT_MAX in *. lia. }
  assert (∀ a b, is_Some (get m a b) →
                 INT_MIN ≤ a * 4 ≤ INT_MAX ∧ 0 ≤ a * 4 + b < 16) as Hget.
  { intros a b [e He]. unfold get in He. rewrite Hc in He.
    destruct (offset a 4 b) as [o|] eqn:Ho; simpl in He; [|done].
    apply offset_defined in Ho as (-> & Ha & Hb).
    unfold vec_get in He. case_decide; [|done].
    apply lookup_lt_Some in He. split; [done|lia]. }
  assert (∀ a b, INT_MIN ≤ a * 4 ≤ INT_MAX → 0 ≤ a * 4 + b < 16 →
                 get m a b = values m !! Z.to_nat (a * 4 + b)) as Hread.
  { intros a b Ha Hb. unfold get. rewrite Hc, Hoff by done. simpl.
    apply vec_get_lookup. lia. }
  split; [|split; [|split]].
  - split; [apply Hget|]. intros (Ha & Hb). rewrite Hread by done.
    apply lookup_lt_is_Some. lia.
  - split.
    + intros [m' Hset]. apply Hget. unfold set in Hset. succeeded Hset.
      unfold get. rewrite E. simpl. unfold vec_set in E0. succeeded E0.
      by eexists.
    + intros (Ha & Hb). unfold set. rewrite Hc, Hoff by done. simpl.
      rewrite vec_set_Some by lia. by eexists.
  - intros (Ha & Hb). by apply Hread.
  - intros i' j' m' Ha Ha' Heq. split.
    + destruct (decide (0 ≤ i * 4 + j < 16)) as [Hin|Hout].
      * rewrite !Hread by (done || lia). by rewrite Heq.
      * destruct (get m i j) eqn:E1.
        { destruct (Hget i j) as [_ ?]; [by eexists|done]. }
        destruct (get m i' j') eqn:E2; [|done].
        destruct (Hget i' j') as [_ ?]; [by eexists|lia].
    + intros Hset. unfold set in Hset. rewrite Hc in Hset. succeeded Hset.
      injection Hset as <-.
      apply offset_defined in E as (-> & _ & Hb).
      unfold vec_set in E0. succeeded E0. injection E0 as <-.
      unfold vec_get in E. case_decide; [|done].
      apply lookup_lt_Some in E.
      unfold get. simpl. rewrite Hoff by lia. simpl.
      rewrite Heq, vec_get_lookup by lia.
      apply list_lookup_insert_eq. lia.
Qed.

End Subscripts.

(** ** The dump, the transpose and the text rendering *)

Section Layout.

Context {F : Type} `{FloatOps F}.
Implicit Types (m a b : Mat4 F) (i j : Z).

(** X5. [dumpColumnWise] never checks the destination: on a well-formed
    matrix it is defined exactly when the destination has at least 16
    slots, and it then holds the row-major content of the transposed
    matrix, followed by the slots from 16 on as they were. *)
Theorem dump_needs_16_slots m (array : list F) :
  well_formed m →
  (is_Some (dumpColumnWise m array) ↔ (16 ≤ length array)%nat) ∧
  ∃ t, transpose m = Some t ∧
       ((16 ≤ length array)%nat →
        dumpColumnWise m array = Some (values t ++ drop 16 array)).
Proof.
  intros Hm. explode m. split.
  - split.
    + intros [out Hout].
      do 16 (destruct array as [|? array]; [discriminate Hout|]).
      simpl. lia.
    + intros Hlen.
      do 16 (destruct array as [|? array]; [simpl in Hlen; lia|]).
      by eexists.
  - eexists. split; [reflexivity|]. intros Hlen.
    do 16 (destruct array as [|? array]; [simpl in Hlen; lia|]).
    reflexivity.
Qed.

(** X6. [operator<<] appends to what the stream already holds: 4 lines,
    each made of the 4 values of a row in column order, every value
    followed by a space and every row by a line end (36 items). *)
Theorem print_appends_four_lines m (out : list (token F)) :
  well_formed m →
  print out m = Some (out ++ rendering m) ∧ length (rendering m) = 36%nat.
Proof.
  intros Hm. explode m. split; [|reflexivity].
  unfold print, for_lt. simpl. rewrite <- !app_assoc. reflexivity.
Qed.

End Layout.

(** ** Element-wise operators *)

Section Elementwise.

Context {F : Type} `{FloatOps F}.
Implicit Types (m a b : Mat4 F) (i j : Z).

(** The operators combine the two vectors position by position. *)
Lemma elementwise_values (op : F → F → F) a b :
  well_formed a → well_formed b →
  elementwise op a b = Some (mkMat4 (zip_with op (values a) (values b)) 4 4).
Proof. intros Ha Hb. explode a. explode b. reflexivity. Qed.

Lemma mul_scalar_values m (v : F) :
  well_formed m →
  mul_scalar m v = Some (mkMat4 (map (λ e, f_mul e v) (values m)) 4 4).
Proof. intros Hm. explode m. reflexivity. Qed.

Lemma transpose_well_formed m :
  well_formed m → ∃ t, transpose m = Some t ∧ well_formed t.
Proof. intros Hm. explode m. eexists. split; [reflexivity|by repeat split]. Qed.

(** X7. [operator+], [operator-], [operator%] and the scalar [operator*]
    return a matrix whose element at row [i], column [j] is [a[i][j]]
    combined with [b[i][j]] (with the scalar, for the last one); nothing of
    the default-constructed result is left. *)
Theorem elementwise_entries a b (v : F) i j :
  well_formed a → well_formed b → in_range i → in_range j →
  ∃ s d h k, add a b = Some s ∧ sub a b = Some d ∧ hadamard a b = Some h ∧
             mul_scalar a v = Some k ∧
             well_formed s ∧ well_formed d ∧ well_formed h ∧ well_formed k ∧
             get s i j = Some (f_add (entry a i j) (entry b i j)) ∧
             get d i j = Some (f_sub (entry a i j) (entry b i j)) ∧
             get h i j = Some (f_mul (entry a i j) (entry b i j)) ∧
             get k i j = Some (f_mul (entry a i j) v).
Proof.
  intros Ha Hb Hi Hj. explode a. explode b. do 4 eexists.
  do 4 (split; [reflexivity|]). do 4 (split; [by repeat split|]).
  index_cases i; index_cases j; repeat split.
Qed.

(** X8. Transposition commutes with the element-wise operators and with
    the scalar product: transposing [a + b], [a - b], [a % b] or [a * v]
    gives the same matrix as combining the transposed operands. *)
Theorem transpose_commutes_with_elementwise a b (v : F) :
  well_formed a → well_formed b →
  ∃ ta tb, transpose a = Some ta ∧ transpose b = Some tb ∧
           (add a b ≫= transpose) = add ta tb ∧
           (sub a b ≫= transpose) = sub ta tb ∧
           (hadamard a b ≫= transpose) = hadamard ta tb ∧
           (mul_scalar a v ≫= transpose) = mul_scalar ta v ∧
           is_Some (add ta tb) ∧ is_Some (mul_scalar ta v).
Proof.
  intros Ha Hb. explode a. explode b. do 2 eexists.
  do 2 (split; [reflexivity|]). repeat split; by eexists.
Qed.

End Elementwise.

(** ** Element-wise operators in IEEE arithmetic *)

Lemma SFadd_comm (u v : float) : f_add u v = f_add v u.
Proof.
  destruct u as [[]|[]| |su mu eu], v as [[]|[]| |sv mv ev]; try reflexivity.
  unfold f_add, float_ops, SFadd. by rewrite Z.min_comm, Z.add_comm.
Qed.

Lemma SFmul_comm (u v : float) : f_mul u v = f_mul v u.
Proof.
  destruct u as [[]|[]| |su mu eu], v as [[]|[]| |sv mv ev]; try reflexivity;
    try (by destruct sv); try (by destruct su).
  unfold f_mul, float_ops, SFmul.
  by rewrite xorb_comm, Pos.mul_comm, Z.add_comm.
Qed.

Lemma SFsub_diag (v : float) :
  is_finite v = true → f_sub v v = f_of_int 0.
Proof.
  destruct v as [[]|[]| |s m e]; try done. intros _.
  unfold f_sub, float_ops, SFsub. by rewrite Z.sub_diag.
Qed.

Lemma SFsub_zero (v : float) : f_sub v (f_of_int 0) = v.
Proof. by destruct v as [[]|[]| |s m e]. Qed.

Lemma SFadd_zero (v : float) : f_add v (f_of_int 0) = drop_zero_sign v.
Proof. by destruct v as [[]|[]| |s m e]. Qed.

Section ElementwiseIEEE.

Implicit Types (m a b : Mat4 float).

Lemma zip_with_comm (op : float → float → float) (l k : list float) :
  (∀ u v, op u v = op v u) → zip_with op l k = zip_with op k l.
Proof.
  intros Hop. revert k. induction l as [|u l IH]; intros [|v k]; simpl;
    [done..|]. by rewrite Hop, IH.
Qed.

Lemma zip_with_replicate (op : float → float → float) (c : float)
    (l : list float) :
  zip_with op l (replicate (length l) c) = map (λ u, op u c) l.
Proof. induction l as [|u l IH]; simpl; [done|]. by rewrite IH. Qed.

Lemma zip_with_diag (op : float → float → float) (l : list float) :
  zip_with op l l = map (λ u, op u u) l.
Proof. induction l as [|u l IH]; simpl; [done|]. by rewrite IH. Qed.

Lemma map_constant (f : float → float) (c : float) (P : float → Prop)
    (l : list float) :
  (∀ u, P u → f u = c) → Forall P l → map f l = replicate (length l) c.
Proof.
  intros Hf. induction 1 as [|u l Hu _ IH]; simpl; [done|].
  by rewrite Hf, IH.
Qed.

Lemma map_identity (f : float → float) (P : float → Prop) (l : list float) :
  (∀ u, P u → f u = u) → Forall P l → map f l = l.
Proof.
  intros Hf. induction 1 as [|u l Hu _ IH]; simpl; [done|].
  by rewrite Hf, IH.
Qed.

(** X9. In IEEE arithmetic the element-wise sum and the element-wise
    product do not depend on the order of the operands: [a + b] is [b + a]
    and [a % b] is [b % a], for all well-formed matrices, infinities and
    NaNs included. *)
Theorem add_and_hadamard_commute a b :
  well_formed a → well_formed b →
  add a b = add b a ∧ hadamard a b = hadamard b a ∧ is_Some (add a b) ∧
  is_Some (hadamard a b).
Proof.
  intros Ha Hb. unfold add, hadamard. rewrite !elementwise_values by done.
  rewrite (zip_with_comm f_add (values a)) by apply SFadd_comm.
  rewrite (zip_with_comm f_mul (values a)) by apply SFmul_comm.
  repeat split; by eexists.
Qed.

(** X10. In IEEE arithmetic, subtracting from itself a matrix whose
    entries are finite gives the matrix that [Mat4(ZEROS)] builds, all
    entries +0; an infinite entry would give a NaN at its position. *)
Theorem sub_self_is_zeros m :
  well_formed m → Forall (λ v, is_finite v = true) (values m) →
  sub m m = Mat4_init ZEROS ∧
  ∀ i j m', in_range i → in_range j → set m i j infinity = Some m' →
            (sub m' m' ≫= λ d, get d i j) = Some S754_nan.
Proof.
  intros Hm Hfin. pose proof Hm as (_ & _ & Hl). split.
  - unfold sub. rewrite elementwise_values, zip_with_diag by done.
    rewrite (map_constant _ (f_of_int 0) _ _ SFsub_diag Hfin), Hl.
    reflexivity.
  - intros i j m' Hi Hj Hset. explode m. index_cases i; index_cases j;
      injection Hset as <-; reflexivity.
Qed.

(** X11. Neutral operands in IEEE arithmetic, for a well-formed matrix of
    float values: the scalar product by 1 and the element-wise product by
    [Mat4(ONES)] return the matrix itself, and so does the subtraction of
    [Mat4(ZEROS)]; the addition of [Mat4(ZEROS)] returns it with every
    negative zero replaced by +0. *)
Theorem neutral_operands m :
  well_formed m → Forall (λ v, is_float v = true) (values m) →
  ∃ O Z, Mat4_init ONES = Some O ∧ Mat4_init ZEROS = Some Z ∧
         mul_scalar m (f_of_int 1) = Some m ∧
         hadamard m O = Some m ∧
         sub m Z = Some m ∧
         add m Z = Some (mkMat4 (map drop_zero_sign (values m)) 4 4).
Proof.
  intros Hm Hval. pose proof Hm as (Hr & Hc & Hl).
  assert (m = mkMat4 (values m) 4 4) as Hrecord
    by (destruct m; simpl in *; by subst).
  do 2 eexists. do 2 (split; [reflexivity|]).
  assert (well_formed (mkMat4 (replicate 16 (f_of_int 1 : float)) 4 4))
    as HO by (by repeat split).
  assert (well_formed (mkMat4 (replicate 16 (f_of_int 0 : float)) 4 4))
    as HZ by (by repeat split).
  split; [|split; [|split]].
  - rewrite mul_scalar_values by done.
    rewrite (map_identity _ _ _ mul_one_r Hval). by rewrite <- Hrecord.
  - unfold hadamard.
    rewrite (elementwise_values _ _ _ Hm HO). cbn [values]. rewrite <- Hl.
    rewrite zip_with_replicate, (map_identity _ _ _ mul_one_r Hval).
    by rewrite <- Hrecord.
  - unfold sub. rewrite (elementwise_values _ _ _ Hm HZ). cbn [values].
    rewrite <- Hl, zip_with_replicate.
    rewrite (map_identity _ (λ _, True) _ (λ u _, SFsub_zero u)).
    + by rewrite <- Hrecord.
    + by apply Forall_true.
  - unfold add. rewrite (elementwise_values _ _ _ Hm HZ). cbn [values].
    rewrite <- Hl, zip_with_replicate. do 2 f_equal.
    apply map_ext. intros u. apply SFadd_zero.
Qed.

End ElementwiseIEEE.

(** ** Products and transposition *)

Section ProductEntries.

Context {F : Type} `{FloatOps F}.
Implicit Types (m a b : Mat4 F) (i j : Z).

Lemma transpose_entries m :
  well_formed m →
  ∃ t, transpose m = Some t ∧ well_formed t ∧
       ∀ i j, in_range i → in_range j → entry t i j = entry m j i.
Proof.
  intros Hm. explode m. eexists. split; [reflexivity|].
  split; [by repeat split|].
  intros i j Hi Hj. index_cases i; index_cases j; reflexivity.
Qed.

Lemma entry_of_get m i j (e : F) : get m i j = Some e → entry m i j = e.
Proof. unfold entry. by intros ->. Qed.

Lemma mat4_ext_entry a b :
  well_formed a → well_formed b →
  (∀ i j, in_range i → in_range j → entry a i j = entry b i j) → a = b.
Proof.
  intros Ha Hb Hentry. apply mat4_ext; [done..|].
  intros i j Hi Hj. rewrite !get_entry by done. by rewrite Hentry.
Qed.

End ProductEntries.

(** X12. In IEEE arithmetic the transpose of a product is the product of
    the transposes in the opposite order: [~(a * b)] and [~b * ~a] are the
    same matrix, element for element. *)
Theorem transpose_of_product (a b : Mat4 float) :
  well_formed a → well_formed b →
  ∃ ta tb, transpose a = Some ta ∧ transpose b = Some tb ∧
           (mul a b ≫= transpose) = mul tb ta ∧ is_Some (mul tb ta).
Proof.
  intros Ha Hb.
  destruct (transpose_entries a Ha) as (ta & Hta & Htawf & Htaget).
  destruct (transpose_entries b Hb) as (tb & Htb & Htbwf & Htbget).
  destruct (mul_entry a b Ha Hb) as (p & Hp & Hpwf & Hpget).
  destruct (transpose_entries p Hpwf) as (tp & Htp & Htpwf & Htpget).
  destruct (mul_entry tb ta Htbwf Htawf) as (q & Hq & Hqwf & Hqget).
  exists ta, tb. do 2 (split; [done|]).
  rewrite Hp, Hq. simpl. rewrite Htp. split; [|by eexists]. f_equal.
  apply mat4_ext_entry; [done..|]. intros i j Hi Hj.
  rewrite Htpget by done.
  rewrite (entry_of_get _ _ _ _ (Hpget j i Hj Hi)).
  rewrite (entry_of_get _ _ _ _ (Hqget i j Hi Hj)).
  assert (in_range 0 ∧ in_range 1 ∧ in_range 2 ∧ in_range 3)
    as (H0 & H1 & H2 & H3) by (unfold in_range; lia).
  unfold row_by_column. cbn [foldl].
  rewrite !Htbget, !Htaget by done.
  by rewrite !(SFmul_comm (entry b _ _) (entry a _ _)).
Qed.

(** ** Transform matrices applied and composed *)

Section TransformEntries.

Context {F : Type} `{FloatOps F}.

Lemma translation_values (t : Vec3 F) :
  Mat4_translation t =
  Some (mkMat4 [f_of_int 1; f_of_int 0; f_of_int 0; x t;
                f_of_int 0; f_of_int 1; f_of_int 0; y t;
                f_of_int 0; f_of_int 0; f_of_int 1; z t;
                f_of_int 0; f_of_int 0; f_of_int 0; f_of_int 1] 4 4).
Proof. reflexivity. Qed.

Lemma scale_values (sx sy sz : F) :
  Mat4_scale sx sy sz =
  Some (mkMat4 [sx; f_of_int 0; f_of_int 0; f_of_int 0;
                f_of_int 0; sy; f_of_int 0; f_of_int 0;
                f_of_int 0; f_of_int 0; sz; f_of_int 0;
                f_of_int 0; f_of_int 0; f_of_int 0; f_of_int 1] 4 4).
Proof. reflexivity. Qed.

End TransformEntries.

Lemma add_zero_products (u p q : float) :
  is_zero p = true → is_zero q = true →
  drop_zero_sign (f_add (f_add u p) q) = drop_zero_sign u.
Proof.
  destruct u as [[]|[]| |s m e], p as [[]| | |], q as [[]| | |]; done.
Qed.

Lemma add_zero_around (u p q : float) :
  is_zero p = true → is_zero q = true →
  drop_zero_sign (f_add (f_add p u) q) = drop_zero_sign u.
Proof.
  destruct u as [[]|[]| |s m e], p as [[]| | |], q as [[]| | |]; done.
Qed.

Lemma add_zero_before (u p q : float) :
  is_zero p = true → is_zero q = true →
  drop_zero_sign (f_add (f_add p q) u) = drop_zero_sign u.
Proof.
  destruct u as [[]|[]| |s m e], p as [[]| | |], q as [[]| | |]; done.
Qed.

Lemma drop_zero_sign_eqb_finite (u v : float) :
  is_finite v = true → drop_zero_sign u = drop_zero_sign v → eqb u v = true.
Proof.
  intros Hv Huv.
  destruct u as [[]|[]| |su mu eu], v as [[]|[]| |sv mv ev]; try done.
  injection Huv as -> -> ->.
  unfold eqb, SFeqb, SFcompare.
  rewrite Z.compare_refl, Pos.compare_cont_refl. by destruct sv.
Qed.

(** X13. The scale matrix applied to a vector of finite floats multiplies
    each component by its factor: component [k] of [Mat4(sx, sy, sz) * v]
    is [s_k * v_k], up to the sign of a zero, whatever the factors (the two
    other terms of the row are zeros). With [v = (1, 1, 1)] and float
    factors, the result is the factors themselves, up to the sign of a
    zero. *)
Theorem scale_applies_factors (sx sy sz : float) (v : Vec3f float) :
  is_finite (c0 v) = true → is_finite (c1 v) = true →
  is_finite (c2 v) = true →
  ∃ m r, Mat4_scale sx sy sz = Some m ∧ mul_vec m v = Some r ∧
         drop_zero_sign (c0 r) = drop_zero_sign (f_mul sx (c0 v)) ∧
         drop_zero_sign (c1 r) = drop_zero_sign (f_mul sy (c1 v)) ∧
         drop_zero_sign (c2 r) = drop_zero_sign (f_mul sz (c2 v)) ∧
         (is_float sx = true → is_float sy = true → is_float sz = true →
          ∃ r1, mul_vec m (mkVec3f (f_of_int 1) (f_of_int 1) (f_of_int 1))
                  = Some r1 ∧
                drop_zero_sign (c0 r1) = drop_zero_sign sx ∧
                drop_zero_sign (c1 r1) = drop_zero_sign sy ∧
                drop_zero_sign (c2 r1) = drop_zero_sign sz).
Proof.
  intros H0 H1 H2. do 2 eexists. split; [apply scale_values|].
  split; [reflexivity|]. cbn [c0 c1 c2].
  split; [|split; [|split]].
  - apply add_zero_products; by apply zero_mul_l.
  - apply add_zero_around; by apply zero_mul_l.
  - apply add_zero_before; by apply zero_mul_l.
  - intros Hx Hy Hz. eexists. split; [reflexivity|]. cbn [c0 c1 c2].
    rewrite <- (mul_one_r sx) at 2 by done.
    rewrite <- (mul_one_r sy) at 2 by done.
    rewrite <- (mul_one_r sz) at 2 by done.
    split; [|split].
    + apply add_zero_products; by apply zero_mul_l.
    + apply add_zero_around; by apply zero_mul_l.
    + apply add_zero_before; by apply zero_mul_l.
Qed.

(** X14. The matrix-vector product ignores the translation: whatever the
    translation vector (infinite or NaN components included), the
    translation matrix applied to a vector of finite floats returns a
    vector that compares equal to it, component by component. *)
Theorem translation_leaves_directions (t : Vec3 float) (v : Vec3f float) :
  finite_float (c0 v) → finite_float (c1 v) → finite_float (c2 v) →
  ∃ m r, Mat4_translation t = Some m ∧ mul_vec m v = Some r ∧
         eqb (c0 r) (c0 v) = true ∧ eqb (c1 r) (c1 v) = true ∧
         eqb (c2 r) (c2 v) = true.
Proof.
  intros [V0 F0] [V1 F1] [V2 F2]. do 2 eexists.
  split; [apply translation_values|]. split; [reflexivity|].
  cbn [c0 c1 c2]. split; [|split].
  - apply drop_zero_sign_eqb_finite; [done|].
    rewrite <- (mul_one_l (c0 v)) at 2 by done.
    apply add_zero_products; by apply zero_mul_l.
  - apply drop_zero_sign_eqb_finite; [done|].
    rewrite <- (mul_one_l (c1 v)) at 2 by done.
    apply add_zero_around; by apply zero_mul_l.
  - apply drop_zero_sign_eqb_finite; [done|].
    rewrite <- (mul_one_l (c2 v)) at 2 by done.
    apply add_zero_before; by apply zero_mul_l.
Qed.

(** X16. The rotation is about the z axis: whatever the angle and whatever
    the C library's [cos] and [sin] return, the rotation matrix applied to
    a vector of finite floats returns a third component that compares
    equal to the vector's (row 2 of the matrix is 0, 0, 1). *)
Theorem rotation_keeps_z (libm_cos libm_sin : double → double)
    (a : float) (v : Vec3f float) :
  finite_float (c0 v) → finite_float (c1 v) → finite_float (c2 v) →
  ∃ m r, Mat4_rotation (H0 := double_ops libm_cos libm_sin) a = Some m ∧
         mul_vec m v = Some r ∧ eqb (c2 r) (c2 v) = true.
Proof.
  intros [V0 F0] [V1 F1] [V2 F2]. do 2 eexists.
  split; [apply rotation_values|]. split; [reflexivity|]. cbn [c2].
  apply drop_zero_sign_eqb_finite; [done|].
  rewrite <- (mul_one_l (c2 v)) at 2 by done.
  apply add_zero_before; by apply zero_mul_l.
Qed.

Section TranslationEntries.

Context {F : Type} `{FloatOps F}.

Lemma translation_entry (t : Vec3 F) (m : Mat4 F) (i j : Z) :
  Mat4_translation t = Some m → in_range i → in_range j →
  entry m i j =
  if decide (i < 3 ∧ j = 3)
  then (if decide (i = 0) then x t else if decide (i = 1) then y t else z t)
  else f_of_int (if decide (i = j) then 1 else 0).
Proof.
  intros [= <-] Hi Hj. index_cases i; index_cases j; reflexivity.
Qed.

Lemma translation_well_formed (t : Vec3 F) :
  ∃ m, Mat4_translation t = Some m ∧ well_formed m.
Proof. eexists. split; [reflexivity|by repeat split]. Qed.

End TranslationEntries.

Lemma add_after_drop (u v : float) :
  drop_zero_sign (f_add (drop_zero_sign u) v) = drop_zero_sign (f_add u v).
Proof.
  destruct u as [su|su| |su mu eu]; [|reflexivity..].
  destruct su, v as [[]|[]| |sv mv ev]; reflexivity.
Qed.

(** Rewrites the sums and products with 0 and 1 that a product with a
    transform matrix leaves. *)
Ltac zero_one_side :=
  first [ reflexivity | assumption
        | apply zero_mul_l; first [reflexivity | assumption]
        | apply zero_mul_r; first [reflexivity | assumption] ].

Ltac zero_one_arith :=
  repeat first
    [ rewrite mul_one_l by zero_one_side
    | rewrite mul_one_r by zero_one_side
    | rewrite add_zero_product by zero_one_side
    | rewrite add_first_term by zero_one_side
    | rewrite add_later_zero by zero_one_side ].

(** X15. Translations compose by adding their vectors. For two vectors of
    finite floats, [Mat4(t1) * Mat4(t2)] is the translation matrix of the
    vector with components [t2 + t1], each sum computed after a negative
    zero of [t2] is replaced by +0; [getTranslationVec3] of the product
    returns that vector, which compares equal to [t1 + t2]. *)
Theorem translations_compose (t1 t2 : Vec3 float) :
  finite_float (x t1) → finite_float (y t1) → finite_float (z t1) →
  finite_float (x t2) → finite_float (y t2) → finite_float (z t2) →
  let t := mkVec3 (f_add (drop_zero_sign (x t2)) (x t1))
                  (f_add (drop_zero_sign (y t2)) (y t1))
                  (f_add (drop_zero_sign (z t2)) (z t1)) in
  ∃ m1 m2 p, Mat4_translation t1 = Some m1 ∧ Mat4_translation t2 = Some m2 ∧
             mul m1 m2 = Some p ∧ Mat4_translation t = Some p ∧
             getTranslationVec3 p = Some t ∧
             drop_zero_sign (x t) = drop_zero_sign (f_add (x t1) (x t2)) ∧
             drop_zero_sign (y t) = drop_zero_sign (f_add (y t1) (y t2)) ∧
             drop_zero_sign (z t) = drop_zero_sign (f_add (z t1) (z t2)).
Proof.
  intros [Va Fa] [Vb Fb] [Vc Fc] [Vd Fd] [Ve Fe] [Vf Ff] t.
  destruct (translation_well_formed t1) as (m1 & Hm1 & Hwf1).
  destruct (translation_well_formed t2) as (m2 & Hm2 & Hwf2).
  destruct (translation_well_formed t) as (m & Hm & Hwf).
  destruct (mul_entry m1 m2 Hwf1 Hwf2) as (p & Hp & Hpwf & Hpget).
  assert (p = m) as ->.
  { apply mat4_ext_entry; [done..|]. intros i j Hi Hj.
    rewrite (entry_of_get _ _ _ _ (Hpget i j Hi Hj)).
    assert (in_range 0 ∧ in_range 1 ∧ in_range 2 ∧ in_range 3)
      as (H0 & H1 & H2 & H3) by (unfold in_range; lia).
    unfold row_by_column. cbn [foldl].
    rewrite !(translation_entry t1 m1), !(translation_entry t2 m2),
      (translation_entry t m) by done.
    index_cases i; index_cases j;
      repeat (rewrite decide_True by lia || rewrite decide_False by lia);
      zero_one_arith; reflexivity. }
  exists m1, m2, m. do 4 (split; [done|]).
  split; [injection Hm as <-; reflexivity|].
  unfold t. cbn [x y z]. 
  rewrite (SFadd_comm (x t1)), (SFadd_comm (y t1)), (SFadd_comm (z t1)).
  split; [|split]; apply add_after_drop.
Qed.

(** ** The further properties on sample data *)

Section MoreWitnesses.

Import Sample.

Lemma counting_finite : Forall finite_float (values counting).
Proof. repeat constructor. Qed.

Lemma in_range_3 : in_range 3.
Proof. unfold in_range. lia. Qed.

Lemma init_modes_witness :
  ∃ I O : Mat4 float,
    Mat4_init IDENTITY = Some I ∧ get I 1 1 = Some (float_of_int 1) ∧
    Mat4_init ONES = Some O ∧ get O 1 3 = Some (float_of_int 1).
Proof.
  destruct (init_modes (F := float) 1 1 in_range_1 in_range_1)
    as (I & O & Z & HI & HO & _ & _ & HgetI & _).
  destruct (init_modes (F := float) 1 3 in_range_1 in_range_3)
    as (I' & O' & Z' & _ & HO' & _ & _ & _ & HgetO & _).
  exists I, O. split; [exact HI|]. split; [exact HgetI|].
  split; [exact HO|]. rewrite HO in HO'. injection HO' as <-. exact HgetO.
Defined.

Lemma fill_forgets_content_witness :
  setZeros counting = Mat4_init ZEROS ∧ setIdentity counting = Mat4_init IDENTITY.
Proof.
  destruct (fill_forgets_content counting counting_well_formed)
    as (Hzeros & _ & Hidentity).
  split; [exact Hzeros|exact Hidentity].
Defined.

Lemma copies_are_equal_witness :
  Mat4_copy descending = Some descending ∧
  assign counting descending = Some descending.
Proof.
  exact (copies_are_equal counting descending
           counting_well_formed descending_well_formed).
Defined.

(** [get(0, 5)] reads the element of row 1, column 1, and [get(4, 0)] is
    not defined. *)
Lemma access_goes_through_offset_witness :
  get counting 0 5 = Some (float_of_int 6) ∧ ¬ is_Some (get counting 4 0).
Proof.
  destruct (access_goes_through_offset counting 1 1 (float_of_int 0)
              counting_well_formed) as (_ & _ & _ & Halias).
  destruct (Halias 0 5 counting) as (Hsame & _);
    [unfold INT_MIN, INT_MAX; lia..|].
  destruct (access_goes_through_offset counting 4 0 (float_of_int 0)
              counting_well_formed) as (Hdefined & _).
  split; [rewrite Hsame; vm_compute; reflexivity|].
  rewrite Hdefined. lia.
Defined.

Lemma dump_needs_16_slots_witness :
  ¬ is_Some (dumpColumnWise counting (replicate 15 (float_of_int 0))) ∧
  is_Some (dumpColumnWise counting (replicate 16 (float_of_int 0))).
Proof.
  destruct (dump_needs_16_slots counting (replicate 15 (float_of_int 0))
              counting_well_formed) as (Hshort & _).
  destruct (dump_needs_16_slots counting (replicate 16 (float_of_int 0))
              counting_well_formed) as (Hlong & _).
  rewrite Hshort, Hlong. simpl. lia.
Defined.

Lemma print_appends_four_lines_witness :
  print [Endl] counting = Some ([Endl] ++ rendering counting).
Proof.
  destruct (print_appends_four_lines counting [Endl] counting_well_formed)
    as (Hprint & _).
  exact Hprint.
Defined.

Lemma elementwise_entries_witness :
  ∃ s k, add counting descending = Some s ∧
         get s 2 1 = Some (float_of_int 17) ∧
         mul_scalar counting (float_of_int 3) = Some k ∧
         get k 2 1 = Some (float_of_int 30).
Proof.
  destruct (elementwise_entries counting descending (float_of_int 3) 2 1
              counting_well_formed descending_well_formed
              in_range_2 in_range_1)
    as (s & d & h & k & Hs & _ & _ & Hk & _ & _ & _ & _ & Hgs & _ & _ & Hgk).
  exists s, k. split; [exact Hs|]. split; [rewrite Hgs; vm_compute; reflexivity|].
  split; [exact Hk|]. rewrite Hgk. vm_compute. reflexivity.
Defined.

Lemma transpose_commutes_with_elementwise_witness :
  (add counting descending ≫= transpose)
  = (ta ← transpose counting; tb ← transpose descending; add ta tb).
Proof.
  destruct (transpose_commutes_with_elementwise counting descending
              (float_of_int 2) counting_well_formed descending_well_formed)
    as (ta & tb & Hta & Htb & Hadd & _).
  rewrite Hta, Htb. exact Hadd.
Defined.

Lemma add_and_hadamard_commute_witness :
  add counting descending = add descending counting ∧
  hadamard counting descending = hadamard descending counting.
Proof.
  destruct (add_and_hadamard_commute counting descending
              counting_well_formed descending_well_formed)
    as (Hadd & Hhadamard & _).
  split; [exact Hadd|exact Hhadamard].
Defined.

Lemma sub_self_is_zeros_witness : sub counting counting = Mat4_init ZEROS.
Proof.
  assert (Forall (λ v, is_finite v = true) (values counting)) as Hfinite
    by (repeat constructor).
  destruct (sub_self_is_zeros counting counting_well_formed Hfinite)
    as (Hzeros & _).
  exact Hzeros.
Defined.

Lemma neutral_operands_witness :
  mul_scalar counting (float_of_int 1) = Some counting.
Proof.
  assert (Forall (λ v, is_float v = true) (values counting)) as Hfloats
    by (repeat constructor).
  destruct (neutral_operands counting counting_well_formed Hfloats)
    as (O & Z & _ & _ & Hscalar & _).
  exact Hscalar.
Defined.

Lemma transpose_of_product_witness :
  (mul counting descending ≫= transpose)
  = (ta ← transpose counting; tb ← transpose descending; mul tb ta).
Proof.
  destruct (transpose_of_product counting descending
              counting_well_formed descending_well_formed)
    as (ta & tb & Hta & Htb & Hproduct & _).
  rewrite Hta, Htb. exact Hproduct.
Defined.

Lemma scale_applies_factors_witness :
  ∃ m r, Mat4_scale (float_of_int 2) (float_of_int 3) (float_of_int 4) = Some m ∧
         mul_vec m (mkVec3f (float_of_int 5) (float_of_int 6) (float_of_int 7))
           = Some r ∧
         drop_zero_sign (c1 r) = float_of_int 18.
Proof.
  destruct (scale_applies_factors (float_of_int 2) (float_of_int 3)
              (float_of_int 4)
              (mkVec3f (float_of_int 5) (float_of_int 6) (float_of_int 7))
              eq_refl eq_refl eq_refl)
    as (m & r & Hm & Hr & _ & H1 & _).
  exists m, r. split; [exact Hm|]. split; [exact Hr|].
  rewrite H1. vm_compute. reflexivity.
Defined.

Lemma translation_leaves_directions_witness :
  ∃ m r, Mat4_translation (mkVec3 infinity (float_of_int 3) (float_of_int 4))
           = Some m ∧
         mul_vec m (mkVec3f (float_of_int 5) (float_of_int 6) (float_of_int 7))
           = Some r ∧
         eqb (c0 r) (float_of_int 5) = true.
Proof.
  destruct (translation_leaves_directions
              (mkVec3 infinity (float_of_int 3) (float_of_int 4))
              (mkVec3f (float_of_int 5) (float_of_int 6) (float_of_int 7))
              (conj eq_refl eq_refl) (conj eq_refl eq_refl)
              (conj eq_refl eq_refl))
    as (m & r & Hm & Hr & H0 & _).
  exists m, r. split; [exact Hm|]. split; [exact Hr|exact H0].
Defined.

Lemma translations_compose_witness :
  ∃ m1 m2 p,
    Mat4_translation (mkVec3 (float_of_int 1) (float_of_int 2) (float_of_int 3))
      = Some m1 ∧
    Mat4_translation (mkVec3 (float_of_int 5) (float_of_int 6) (float_of_int 7))
      = Some m2 ∧
    mul m1 m2 = Some p ∧
    getTranslationVec3 p
      = Some (mkVec3 (float_of_int 6) (float_of_int 8) (float_of_int 10)).
Proof.
  destruct (translations_compose
              (mkVec3 (float_of_int 1) (float_of_int 2) (float_of_int 3))
              (mkVec3 (float_of_int 5) (float_of_int 6) (float_of_int 7))
              (conj eq_refl eq_refl) (conj eq_refl eq_refl)
              (conj eq_refl eq_refl) (conj eq_refl eq_refl)
              (conj eq_refl eq_refl) (conj eq_refl eq_refl))
    as (m1 & m2 & p & Hm1 & Hm2 & Hp & _ & Hvec & _).
  exists m1, m2, p. split; [exact Hm1|]. split; [exact Hm2|].
  split; [exact Hp|]. rewrite Hvec. vm_compute. reflexivity.
Defined.

Lemma rotation_keeps_z_witness :
  ∃ m r, Mat4_rotation (H0 := libm) (float_of_int 90) = Some m ∧
         mul_vec m (mkVec3f (float_of_int 5) (float_of_int 6) (float_of_int 7))
           = Some r ∧
         eqb (c2 r) (float_of_int 7) = true.
Proof.
  destruct (rotation_keeps_z taylor_cos taylor_sin (float_of_int 90)
              (mkVec3f (float_of_int 5) (float_of_int 6) (float_of_int 7))
              (conj eq_refl eq_refl) (conj eq_refl eq_refl)
              (conj eq_refl eq_refl))
    as (m & r & Hm & Hr & Hz).
  exists m, r. split; [exact Hm|]. split; [exact Hr|exact Hz].
Defined.

End MoreWitnesses.
